(** * STM32 device discovery: a shallow embedding of [Tools/discover_stm32.py]

    The script keeps one module-level list, [discovered_devices], starts a
    listener thread that receives UDP datagrams until a deadline and appends
    the decoded JSON documents to that list, sends one broadcast probe from
    the main thread, joins the listener and prints a summary.

    The embedding follows the script function by function.  Library calls
    whose result depends on the outside world (the sockets, the clock) are
    answered by an explicit environment; [bytes.decode], [json.loads] and
    the encoder of standard output are the fields of a [Codec], over which
    the theorems are generic. *)

From Stdlib Require Import ZArith List Ascii String Bool Lia.
From Stdlib.Strings Require Import Byte.
From Stdlib Require PrimFloat DecimalFacts DecimalPos.
From stdpp Require Import gmap strings list.

Local Open Scope Z_scope.

(** ** Python values and exceptions *)

(** The exception classes the script can meet.  All of them derive from
    [Exception]; only [JSONDecodeError] is caught by name. *)
Inductive exn : Type :=
  | JSONDecodeError
  | UnicodeDecodeError
  | UnicodeEncodeError
  | AttributeError
  | TypeError
  | ValueError
  | OSError
  | SocketTimeout.

(** The outcome of a Python expression: a value or a raised exception. *)
Inductive res (A : Type) : Type :=
  | Ok (a : A)
  | Raise (e : exn).
Arguments Ok {A} a.
Arguments Raise {A} e.

(** What [json.loads] returns: [None], [bool], [int], [float], [str],
    [list] or [dict] with [str] keys. *)
#[warnings="-register-all"]
Inductive json : Type :=
  | JNull
  | JBool (b : bool)
  | JInt (n : Z)
  | JFloat (f : PrimFloat.float)
  | JStr (s : string)
  | JList (l : list json)
  | JDict (m : gmap string json).

Definition is_dict (v : json) : bool :=
  match v with JDict _ => true | _ => false end.

(** [d.get(key, default)]: only a [dict] has the method. *)
Definition py_get (d : json) (key : string) (default : json) : res json :=
  match d with
  | JDict m => Ok (match m !! key with Some v => v | None => default end)
  | _ => Raise AttributeError
  end.

(** [key in d], for the only case the script reaches: [d] a [dict] (the
    [.get] calls that precede the test raise on every other value). *)
Definition py_in_dict (key : string) (d : json) : res bool :=
  match d with
  | JDict m => Ok (match m !! key with Some _ => true | None => false end)
  | _ => Raise TypeError
  end.

(** [x == v] for a [str] [x]: true exactly for an equal [str]. *)
Definition str_eq (x : string) (v : json) : bool :=
  match v with
  | JStr s => if string_dec x s then true else false
  | _ => false
  end.

(** [x in l] for a [str] [x] and a list [l]. *)
Definition py_in (x : string) (l : list json) : bool := existsb (str_eq x) l.

(** ** The process: module globals and standard output *)

(** One [print] call.  The formatted text is not modelled; a line records
    which call printed it and the values it interpolates. *)
Inductive line : Type :=
  | Banner
  | Hostname (v : json)
  | IPAddress (v : json)
  | DeviceType (v : json)
  | FirmwareVersion (v : json)
  | Rule
  | Listening (timeout : Z)
  | NonJSONResponse (host : string)
  | ErrorProcessing (host : string) (e : exn)
  | SentBroadcast
  | ErrorSending (e : exn)
  | NoDevices
  | FoundDevices (n : nat).

(** Statements.  The one global a statement reads and writes is the list
    [discovered_devices]; besides its value or exception it leaves that
    list as it made it and the lines it printed, oldest first.  What a
    statement did before it raised stays done. *)
Definition M (A : Type) : Type := list json -> res A * list json * list line.

Definition ret {A} (a : A) : M A := fun ds => (Ok a, ds, []).
Definition raise {A} (e : exn) : M A := fun ds => (Raise e, ds, []).
Definition bind {A B} (c : M A) (k : A -> M B) : M B :=
  fun ds => match c ds with
            | (Ok a, ds1, out1) =>
                let '(r, ds2, out2) := k a ds1 in (r, ds2, out1 ++ out2)
            | (Raise e, ds1, out1) => (Raise e, ds1, out1)
            end.
Definition lift {A} (r : res A) : M A := fun ds => (r, ds, []).
(** [try: c except Exception as e: h e] *)
Definition try_except {A} (c : M A) (h : exn -> M A) : M A :=
  fun ds => match c ds with
            | (Ok a, ds1, out1) => (Ok a, ds1, out1)
            | (Raise e, ds1, out1) =>
                let '(r, ds2, out2) := h e ds1 in (r, ds2, out1 ++ out2)
            end.

#[export] Instance M_ret : MRet M := @ret.
#[export] Instance M_bind : MBind M := fun A B k c => bind c k.

(** [print(...)], [discovered_devices.append(v)] and a read of the global. *)
Definition print (l : line) : M unit := fun ds => (Ok tt, ds, [l]).
Definition append (v : json) : M unit := fun ds => (Ok tt, ds ++ [v], []).
Definition devices : M (list json) := fun ds => (Ok ds, ds, []).

(** What a statement leaves behind, by component. *)
Definition result {A} (o : res A * list json * list line) : res A := o.1.1.
Definition devices_after {A} (o : res A * list json * list line) : list json := o.1.2.
Definition printed {A} (o : res A * list json * list line) : list line := o.2.

(** [[f(d) for d in l]]: the first element on which [f] raises ends the
    comprehension. *)
Fixpoint comprehension {A B} (f : A -> res B) (l : list A) : res (list B) :=
  match l with
  | [] => Ok []
  | d :: l' =>
      match f d with
      | Raise e => Raise e
      | Ok b => match comprehension f l' with
                | Raise e => Raise e
                | Ok bs => Ok (b :: bs)
                end
      end
  end.

(** ** Text in and out *)

(** [data.decode('utf-8')], [json.loads] and the encoder of [sys.stdout]:
    library functions, taken as an interface.  A [str] is represented by
    its UTF-8 text.  [stdout_encodes v] tells whether standard output can
    encode the text of [v]; it cannot, for one, when [v] holds a lone
    surrogate, which [json.loads] returns for an escape such as [\udc80]. *)
Class Codec : Type := {
  utf8_decode : list byte -> res string;
  json_loads : string -> res json;
  stdout_encodes : json -> bool
}.

(** [print(f"...{v}")] for a value [v] taken from a document: the call
    raises [UnicodeEncodeError], with nothing written, when standard
    output cannot encode the text of [v].  The other lines the script
    prints are made of fixed text, numbers, addresses and the messages of
    exceptions, and go through [print] as they are. *)
Definition print_value `{Codec} (l : json -> line) (v : json) : M unit :=
  if stdout_encodes v then print (l v) else raise UnicodeEncodeError.

(** ** [print_device_info] *)

Definition print_device_info `{Codec} (device : json) : M unit :=
  print Banner ;;
  h ← lift (py_get device "hostname" (JStr "Unknown"));
  print_value Hostname h ;;
  i ← lift (py_get device "ip" (JStr "Unknown"));
  print_value IPAddress i ;;
  t ← lift (py_get device "type" (JStr "Unknown"));
  print_value DeviceType t ;;
  has_version ← lift (py_in_dict "version" device);
  (if has_version : bool
   then v ← lift (py_get device "version" (JStr "Unknown"));
        print_value FirmwareVersion v
   else ret tt) ;;
  print Rule.

(** ** The listener's environment *)

(** What one call of [sock.recvfrom(1024)] does: it returns the data and
    the sender's [(host, port)], raises [socket.timeout], or raises another
    socket error. *)
Inductive recv : Type :=
  | RecvDatagram (data : list byte) (addr : string * Z)
  | RecvTimeout
  | RecvError.

(** One turn of the [while] loop: the value [time.time()] has when the
    guard is evaluated and what the [recvfrom] of the body does.  Clock
    readings are integers in a fixed unit; [timeout] is in the same unit. *)
Record iteration : Type := mkIteration {
  clock : Z;
  recvfrom : recv
}.

(** The calls of [listen_for_responses] that the outside world answers:
    whether [socket.socket], [setsockopt] and [bind] succeed, the clock
    when [start_time] is taken, and the turns of the loop in order.  The
    turn after the last one listed is one whose clock reading has reached
    the deadline. *)
Record listener_env : Type := mkListenerEnv {
  l_socket_ok : bool;
  l_setsockopt_ok : bool;
  l_bind_ok : bool;
  l_start_time : Z;
  l_turns : list iteration
}.

(** A socket call that either succeeds or raises [OSError]. *)
Definition syscall (ok : bool) : M unit :=
  if ok then ret tt else raise OSError.

(** [sock.settimeout(timeout)] refuses a negative value.  (It also
    refuses a value too large for the platform's time type, some 292
    years in seconds; that bound is left out of this model.) *)
Definition settimeout (timeout : Z) : M unit :=
  if timeout <? 0 then raise ValueError else ret tt.

Section Listener.
Context `{Codec}.

(** Line 57: [json.loads(data.decode('utf-8'))]. *)
Definition decoded (data : list byte) : res json :=
  match utf8_decode data with
  | Ok text => json_loads text
  | Raise e => Raise e
  end.

(** Lines 57 to 61: decode, then, under the lock, compare the sender's
    host with the [ip] fields of the stored documents and append. *)
Definition decode_and_store (data : list byte) (addr : string * Z) : M unit :=
  device_info ← lift (decoded data);
  ds ← devices;
  ips ← lift (comprehension (fun d => py_get d "ip" JNull) ds);
  if negb (py_in (fst addr) ips)
  then append device_info ;; print_device_info device_info
  else ret tt.

(** Lines 62 to 65: the two handlers. *)
Definition on_error (addr : string * Z) (e : exn) : M unit :=
  match e with
  | JSONDecodeError => print (NonJSONResponse (fst addr))
  | _ => print (ErrorProcessing (fst addr) e)
  end.

(** Lines 55 to 65: the body run on a received datagram. *)
Definition process_datagram (data : list byte) (addr : string * Z) : M unit :=
  match data with
  | [] => ret tt
  | _ :: _ => try_except (decode_and_store data addr) (on_error addr)
  end.

(** Line 54: [sock.recvfrom(1024)], as the outside world answers it. *)
Definition sock_recvfrom (r : recv) : M (list byte * (string * Z)) :=
  match r with
  | RecvDatagram data addr => ret (data, addr)
  | RecvTimeout => raise SocketTimeout
  | RecvError => raise OSError
  end.

(** Lines 66 and 67: [except socket.timeout: pass].  Any other exception
    goes on and leaves the loop. *)
Definition pass_timeout (e : exn) : M unit :=
  match e with
  | SocketTimeout => ret tt
  | _ => raise e
  end.

(** Lines 53 to 67: one turn of the loop. *)
Definition turn (r : recv) : M unit :=
  try_except (dg ← sock_recvfrom r; process_datagram dg.1 dg.2) pass_timeout.

(** Lines 52 to 67: the loop runs while the clock is within [timeout]
    of [start_time]. *)
Fixpoint listen_loop (start_time timeout : Z) (turns : list iteration) : M unit :=
  match turns with
  | [] => ret tt
  | it :: rest =>
      if clock it - start_time <? timeout
      then turn (recvfrom it) ;; listen_loop start_time timeout rest
      else ret tt
  end.

Definition listen_for_responses (timeout : Z) (env : listener_env) : M unit :=
  syscall (l_socket_ok env) ;;
  syscall (l_setsockopt_ok env) ;;
  settimeout timeout ;;
  syscall (l_bind_ok env) ;;
  (* start_time = time.time() is [l_start_time env] *)
  print (Listening timeout) ;;
  listen_loop (l_start_time env) timeout (l_turns env).
  (* sock.close(), reached when the loop returns, changes nothing here *)

End Listener.

(** ** A concrete codec for the examples

    The theorems below hold for every [Codec], but for those that follow
    a payload from its bytes to the record.  These and the examples need
    one that computes: strict UTF-8 as [bytes.decode] checks it, and a
    reader for the part of JSON the discovery responses use (objects,
    arrays, strings with the one-letter escapes, integers, the literals).
    Fractional numbers and [\u] escapes are outside that part and are
    refused here, which is where this reader is narrower than
    [json.loads]. *)
Module Fragment.

Definition between (lo hi : N) (b : byte) : bool :=
  ((lo <=? Byte.to_N b) && (Byte.to_N b <=? hi))%N.

(** Well-formed UTF-8: no overlong forms, no surrogates, nothing above
    U+10FFFF. *)
Fixpoint utf8_wf (bs : list byte) : bool :=
  match bs with
  | [] => true
  | b0 :: r0 =>
      if between 0 127 b0 then utf8_wf r0 else
      match r0 with
      | [] => false
      | b1 :: r1 =>
          if between 194 223 b0 then between 128 191 b1 && utf8_wf r1 else
          match r1 with
          | [] => false
          | b2 :: r2 =>
              if between 224 224 b0
              then between 160 191 b1 && between 128 191 b2 && utf8_wf r2
              else if between 237 237 b0
              then between 128 159 b1 && between 128 191 b2 && utf8_wf r2
              else if between 225 239 b0
              then between 128 191 b1 && between 128 191 b2 && utf8_wf r2
              else
              match r2 with
              | [] => false
              | b3 :: r3 =>
                  let tail := between 128 191 b2 && between 128 191 b3 && utf8_wf r3 in
                  if between 240 240 b0 then between 144 191 b1 && tail
                  else if between 241 243 b0 then between 128 191 b1 && tail
                  else if between 244 244 b0 then between 128 143 b1 && tail
                  else false
              end
          end
      end
  end.

Definition decode (data : list byte) : res string :=
  if utf8_wf data then Ok (string_of_list_byte data) else Raise UnicodeDecodeError.

Definition quote : ascii := "034"%char.

Definition is_ws (c : ascii) : bool :=
  Ascii.eqb c " " || Ascii.eqb c "009" || Ascii.eqb c "010" || Ascii.eqb c "013".

Fixpoint skip_ws (cs : list ascii) : list ascii :=
  match cs with
  | c :: r => if is_ws c then skip_ws r else cs
  | [] => []
  end.

Definition digit (c : ascii) : option Z :=
  let n := Z.of_N (N_of_ascii c) in
  if (48 <=? n) && (n <=? 57) then Some (n - 48) else None.

(** The digits at the head of [cs], read in base ten onto [acc]. *)
Fixpoint digits (acc : Z) (cs : list ascii) : Z * list ascii :=
  match cs with
  | c :: r => match digit c with
              | Some d => digits (10 * acc + d) r
              | None => (acc, cs)
              end
  | [] => (acc, [])
  end.

(** An integer without sign: [0], or a nonzero digit and more digits.  A
    fraction or an exponent after it is outside the fragment. *)
Definition natural (cs : list ascii) : option (Z * list ascii) :=
  match cs with
  | c :: r =>
      match digit c with
      | Some d =>
          let '(n, rest) := if d =? 0 then (0, r) else digits d r in
          match rest with
          | c' :: _ =>
              if Ascii.eqb c' "." || Ascii.eqb c' "e" || Ascii.eqb c' "E"
              then None else Some (n, rest)
          | [] => Some (n, rest)
          end
      | None => None
      end
  | [] => None
  end.

(** The characters of a string up to its closing quote; [cs] starts
    after the opening one. *)
Fixpoint scanstring (cs : list ascii) : option (string * list ascii) :=
  match cs with
  | [] => None
  | c :: r =>
      if Ascii.eqb c quote then Some (EmptyString, r)
      else if Ascii.eqb c "\" then
        match r with
        | e :: r' =>
            let unescaped :=
              if Ascii.eqb e quote then Some quote
              else if Ascii.eqb e "\" then Some "\"%char
              else if Ascii.eqb e "/" then Some "/"%char
              else if Ascii.eqb e "b" then Some "008"%char
              else if Ascii.eqb e "f" then Some "012"%char
              else if Ascii.eqb e "n" then Some "010"%char
              else if Ascii.eqb e "r" then Some "013"%char
              else if Ascii.eqb e "t" then Some "009"%char
              else None in
            match unescaped, scanstring r' with
            | Some u, Some (s, rest) => Some (String u s, rest)
            | _, _ => None
            end
        | [] => None
        end
      else if (N_of_ascii c <? 32)%N then None
      else match scanstring r with
           | Some (s, rest) => Some (String c s, rest)
           | None => None
           end
  end.

(** [cs] with the word [w] taken off its head. *)
Fixpoint strip (w cs : list ascii) : option (list ascii) :=
  match w, cs with
  | [], _ => Some cs
  | a :: w', c :: cs' => if Ascii.eqb a c then strip w' cs' else None
  | _ :: _, [] => None
  end.

Definition literal (cs : list ascii) : option (json * list ascii) :=
  let word (w : string) (v : json) :=
    option_map (fun rest => (v, rest)) (strip (list_ascii_of_string w) cs) in
  match cs with
  | "n"%char :: _ => word "null" JNull
  | "t"%char :: _ => word "true" (JBool true)
  | "f"%char :: _ => word "false" (JBool false)
  | "N"%char :: _ => word "NaN" (JFloat PrimFloat.nan)
  | "I"%char :: _ => word "Infinity" (JFloat PrimFloat.infinity)
  | "-"%char :: "I"%char :: _ => word "-Infinity" (JFloat PrimFloat.neg_infinity)
  | "-"%char :: r => option_map (fun '(n, rest) => (JInt (- n), rest)) (natural r)
  | _ => option_map (fun '(n, rest) => (JInt n, rest)) (natural cs)
  end.

(** One value at the head of [cs] (no leading blanks), the members of an
    object after its brace, the elements of an array after its bracket.
    [fuel] bounds the number of calls. *)
Fixpoint value (fuel : nat) (cs : list ascii) : option (json * list ascii) :=
  match fuel with
  | O => None
  | S fuel =>
      match cs with
      | [] => None
      | c :: r =>
          if Ascii.eqb c quote
          then option_map (fun '(s, rest) => (JStr s, rest)) (scanstring r)
          else if Ascii.eqb c "{" then
            match skip_ws r with
            | "}"%char :: rest => Some (JDict ∅, rest)
            | r' => members fuel r' ∅
            end
          else if Ascii.eqb c "[" then
            match skip_ws r with
            | "]"%char :: rest => Some (JList [], rest)
            | r' => elements fuel r' []
            end
          else literal cs
      end
  end
with members (fuel : nat) (cs : list ascii) (acc : gmap string json)
    : option (json * list ascii) :=
  match fuel with
  | O => None
  | S fuel =>
      match cs with
      | c :: r =>
          if Ascii.eqb c quote then
            match scanstring r with
            | Some (key, r1) =>
                match skip_ws r1 with
                | ":"%char :: r2 =>
                    match value fuel (skip_ws r2) with
                    | Some (v, r3) =>
                        let acc' := <[key := v]> acc in
                        match skip_ws r3 with
                        | "}"%char :: rest => Some (JDict acc', rest)
                        | ","%char :: r4 => members fuel (skip_ws r4) acc'
                        | _ => None
                        end
                    | None => None
                    end
                | _ => None
                end
            | None => None
            end
          else None
      | [] => None
      end
  end
with elements (fuel : nat) (cs : list ascii) (acc : list json)
    : option (json * list ascii) :=
  match fuel with
  | O => None
  | S fuel =>
      match value fuel cs with
      | Some (v, r1) =>
          match skip_ws r1 with
          | "]"%char :: rest => Some (JList (acc ++ [v]), rest)
          | ","%char :: r2 => elements fuel (skip_ws r2) (acc ++ [v])
          | _ => None
          end
      | None => None
      end
  end.

Definition loads (text : string) : res json :=
  let cs := list_ascii_of_string text in
  match value (S (List.length cs)) (skip_ws cs) with
  | Some (v, rest) =>
      match skip_ws rest with
      | [] => Ok v
      | _ :: _ => Raise JSONDecodeError
      end
  | None => Raise JSONDecodeError
  end.

(** Every [str] this reader returns is well-formed UTF-8, which a UTF-8
    console encodes. *)
Definition codec : Codec :=
  {| utf8_decode := decode; json_loads := loads; stdout_encodes := fun _ => true |}.

(** A console that encodes ASCII and nothing else, as under the C locale:
    the text of a value goes through when the strings in it are ASCII. *)
Definition ascii_text (s : string) : bool :=
  forallb (fun c => (N_of_ascii c <? 128)%N) (list_ascii_of_string s).

Fixpoint ascii_value (v : json) : bool :=
  match v with
  | JStr s => ascii_text s
  | JList l => forallb ascii_value l
  | JDict m => map_fold (fun k v acc => ascii_text k && ascii_value v && acc) true m
  | _ => true
  end.

Definition ascii_console : Codec :=
  {| utf8_decode := decode; json_loads := loads; stdout_encodes := ascii_value |}.

(** The bytes of a text in which an apostrophe stands for the double
    quote: [payload "{'a':1}"] is the seven bytes of the JSON text. *)
Definition payload (text : string) : list byte :=
  List.map (fun c => byte_of_ascii (if Ascii.eqb c "'" then quote else c))
           (list_ascii_of_string text).

(** *** Writing an object

    The text of a JSON object as a responder writes it: members in the
    order given, each a key and a value that is a string, an integer or a
    literal, [gap] (blanks, possibly none) after each colon and comma.
    Strings are written as they are, between quotes. *)

(** A byte a JSON string holds as it is: no control character, neither
    the quote nor the backslash. *)
Definition plain_char (c : ascii) : bool :=
  (32 <=? N_of_ascii c)%N && negb (Ascii.eqb c quote) && negb (Ascii.eqb c "\").

(** A [str] written between quotes as it is: well-formed UTF-8 made of
    such bytes. *)
Definition plain (s : string) : bool :=
  forallb plain_char (list_ascii_of_string s) && utf8_wf (list_byte_of_string s).

Definition blanks (gap : list ascii) : bool := forallb is_ws gap.

(** The values written: a string, an integer, [true], [false] or
    [null], and what each stands for. *)
Inductive atom : Type :=
  | AStr (s : string)
  | AInt (z : Z)
  | ABool (b : bool)
  | ANull.

Definition atom_value (a : atom) : json :=
  match a with
  | AStr s => JStr s
  | AInt z => JInt z
  | ABool b => JBool b
  | ANull => JNull
  end.

Definition atom_ok (a : atom) : bool :=
  match a with AStr s => plain s | _ => true end.

Definition plain_pairs (kvs : list (string * atom)) : Prop :=
  Forall (fun kv => plain kv.1 = true /\ atom_ok kv.2 = true) kvs.

Definition quoted (s : string) : list ascii :=
  quote :: list_ascii_of_string s ++ [quote].

(** A number in decimal digits, most significant first, with a minus
    sign when it is negative. *)
Fixpoint uint_text (d : Decimal.uint) : list ascii :=
  match d with
  | Decimal.Nil => []
  | Decimal.D0 l => "0"%char :: uint_text l
  | Decimal.D1 l => "1"%char :: uint_text l
  | Decimal.D2 l => "2"%char :: uint_text l
  | Decimal.D3 l => "3"%char :: uint_text l
  | Decimal.D4 l => "4"%char :: uint_text l
  | Decimal.D5 l => "5"%char :: uint_text l
  | Decimal.D6 l => "6"%char :: uint_text l
  | Decimal.D7 l => "7"%char :: uint_text l
  | Decimal.D8 l => "8"%char :: uint_text l
  | Decimal.D9 l => "9"%char :: uint_text l
  end.

Definition int_text (z : Z) : list ascii :=
  match z with
  | Z0 => ["0"%char]
  | Zpos p => uint_text (Pos.to_uint p)
  | Zneg p => "-"%char :: uint_text (Pos.to_uint p)
  end.

Definition atom_text (a : atom) : list ascii :=
  match a with
  | AStr s => quoted s
  | AInt z => int_text z
  | ABool true => list_ascii_of_string "true"
  | ABool false => list_ascii_of_string "false"
  | ANull => list_ascii_of_string "null"
  end.

Definition member_text (gap : list ascii) (kv : string * atom) : list ascii :=
  quoted kv.1 ++ ":"%char :: gap ++ atom_text kv.2.

Fixpoint members_text (gap : list ascii) (kvs : list (string * atom)) : list ascii :=
  match kvs with
  | [] => []
  | [kv] => member_text gap kv
  | kv :: rest => member_text gap kv ++ ","%char :: gap ++ members_text gap rest
  end.

Definition object_text (gap : list ascii) (kvs : list (string * atom)) : list ascii :=
  "{"%char :: members_text gap kvs ++ ["}"%char].

Definition object_payload (gap : list ascii) (kvs : list (string * atom)) : list byte :=
  List.map byte_of_ascii (object_text gap kvs).

(** The value the last member with key [key] gives it, if there is one. *)
Fixpoint last_value {V} (key : string) (kvs : list (string * V)) : option V :=
  match kvs with
  | [] => None
  | (k, v) :: rest =>
      match last_value key rest with
      | Some v' => Some v'
      | None => if string_dec key k then Some v else None
      end
  end.

(** Notions of the proofs: characters whose bytes, put before well-formed
    UTF-8, leave it well formed; what may follow a value in an object;
    what [members] does with one member read. *)
Definition wf_prefix (cs : list ascii) : Prop :=
  forall rest, utf8_wf (List.map byte_of_ascii cs ++ rest) = utf8_wf rest.

Definition closes (tail : list ascii) : Prop :=
  exists r, tail = ","%char :: r \/ tail = "}"%char :: r.

Definition insert_pair (m : gmap string json) (kv : string * atom) : gmap string json :=
  <[kv.1 := atom_value kv.2]> m.

End Fragment.


(** ** The prober and the summary *)

(** The calls of [send_discovery_broadcast] that the outside world
    answers. *)
Record prober_env : Type := mkProberEnv {
  p_socket_ok : bool;
  p_setsockopt_ok : bool;
  p_sendto_ok : bool
}.

(** Lines 77 to 80: the guarded [sendto]. *)
Definition guarded_send (env : prober_env) : M unit :=
  try_except (syscall (p_sendto_ok env) ;; print SentBroadcast)
             (fun e => print (ErrorSending e)).

Definition send_discovery_broadcast (env : prober_env) : M unit :=
  syscall (p_socket_ok env) ;;
  syscall (p_setsockopt_ok env) ;;
  guarded_send env.
  (* sock.close() changes nothing here *)

(** Lines 98 to 102 of [discover_devices]. *)
Definition summary : M unit :=
  ds ← devices;
  match ds with
  | [] => print NoDevices
  | _ :: _ => print (FoundDevices (List.length ds))
  end.

(** ** Two threads

    [discover_devices] starts [listen_for_responses] in a thread of its own
    and goes on to [send_discovery_broadcast]; nothing but the final [join]
    orders the two.  Each thread is cut into the statements below, one
    label each, and a schedule decides whose statement runs next. *)
Inductive label : Type :=
  | ThreadStart
  | ProbeSocket
  | ProbeSetsockopt
  | ProbeSendto
  | ProbeClose
  | ThreadJoin
  | Summary
  | ListenSocket
  | ListenSetsockopt
  | ListenSettimeout
  | ListenBind
  | ListenAnnounce
  | ListenTurn
  | ListenClose.

Definition program : Type := list (label * M unit).

(** A program run from its first statement to its last, or to the first
    that raises. *)
Fixpoint exec (prog : program) : M unit :=
  match prog with
  | [] => ret tt
  | (_, c) :: rest => c ;; exec rest
  end.

Definition prober_steps (env : prober_env) : program :=
  [ (ProbeSocket, syscall (p_socket_ok env));
    (ProbeSetsockopt, syscall (p_setsockopt_ok env));
    (ProbeSendto, guarded_send env);
    (ProbeClose, ret tt) ].

(** The statements of [discover_devices], lines 87 to 102. *)
Definition main_steps (env : prober_env) : program :=
  [(ThreadStart, ret tt)] ++ prober_steps env ++ [(ThreadJoin, ret tt); (Summary, summary)].

Section ListenerSteps.
Context `{Codec}.

Fixpoint loop_steps (start_time timeout : Z) (turns : list iteration) : program :=
  match turns with
  | [] => []
  | it :: rest =>
      if clock it - start_time <? timeout
      then (ListenTurn, turn (recvfrom it)) :: loop_steps start_time timeout rest
      else []
  end.

Definition listener_steps (timeout : Z) (env : listener_env) : program :=
  [ (ListenSocket, syscall (l_socket_ok env));
    (ListenSetsockopt, syscall (l_setsockopt_ok env));
    (ListenSettimeout, settimeout timeout);
    (ListenBind, syscall (l_bind_ok env));
    (ListenAnnounce, print (Listening timeout)) ]
  ++ loop_steps (l_start_time env) timeout (l_turns env)
  ++ [(ListenClose, ret tt)].

End ListenerSteps.

(** A thread has statements left to run (none: it has returned) or has
    ended on an exception. *)
Inductive thread_state : Type :=
  | Running (rest : program)
  | Raised (e : exn).

Definition finished (t : thread_state) : bool :=
  match t with
  | Running [] => true
  | Running (_ :: _) => false
  | Raised _ => true
  end.

(** The process while a session runs.  [listener] is [None] until the
    thread is started; [history] lists the statements run so far, oldest
    first. *)
Record config : Type := mkConfig {
  main : thread_state;
  listener : option thread_state;
  discovered_devices : list json;
  stdout : list line;
  history : list label
}.

Inductive thread : Type := MainThread | ListenerThread.

(** A thread's state after its statement [c] ended with [r]. *)
Definition continue (r : res unit) (rest : program) : thread_state :=
  match r with
  | Ok _ => Running rest
  | Raise e => Raised e
  end.

Section Session.
Context `{Codec}.
Variable timeout : Z.
Variable lenv : listener_env.
Variable penv : prober_env.

(** The process when [discover_devices] is called with [ds] in the
    global list. *)
Definition initial (ds : list json) : config :=
  mkConfig (Running (main_steps penv)) None ds [] [].

(** The chosen thread runs its next statement.  A thread that cannot
    run (it has ended, it is not started, it waits in [join] for a
    listener that still runs) leaves the process as it is. *)
Definition step (t : thread) (c : config) : config :=
  match t with
  | MainThread =>
      match main c with
      | Running ((ThreadStart, _) :: rest) =>
          mkConfig (Running rest) (Some (Running (listener_steps timeout lenv)))
                   (discovered_devices c) (stdout c) (history c ++ [ThreadStart])
      | Running ((ThreadJoin, _) :: rest) =>
          match listener c with
          | Some l => if finished l
                      then mkConfig (Running rest) (listener c) (discovered_devices c)
                                    (stdout c) (history c ++ [ThreadJoin])
                      else c
          | None => c
          end
      | Running ((l, stmt) :: rest) =>
          let '(r, ds, out) := stmt (discovered_devices c) in
          mkConfig (continue r rest) (listener c) ds (stdout c ++ out) (history c ++ [l])
      | _ => c
      end
  | ListenerThread =>
      match listener c with
      | Some (Running ((l, stmt) :: rest)) =>
          let '(r, ds, out) := stmt (discovered_devices c) in
          mkConfig (main c) (Some (continue r rest)) ds (stdout c ++ out) (history c ++ [l])
      | _ => c
      end
  end.

(** The process after the schedule [s], first choice first. *)
Definition run (s : list thread) (c : config) : config :=
  fold_left (fun c t => step t c) s c.

(** [discover_devices] with the listener given the processor until it
    ends: one schedule among the possible ones, long enough for both
    threads to end. *)
Definition listener_first : list thread :=
  MainThread :: repeat ListenerThread (List.length (listener_steps timeout lenv))
  ++ repeat MainThread (List.length (main_steps penv)).

Definition discover_devices (ds : list json) : config :=
  run listener_first (initial ds).

End Session.

(** ** Notions the statements use *)

(** The comparison of line 59 against one stored document: is the
    sender's host equal to the document's [ip] field? *)
Definition same_ip (host : string) (d : json) : bool :=
  match py_get d "ip" JNull with
  | Ok i => str_eq host i
  | Raise _ => false
  end.

(** The datagrams the loop receives, in order: those of the turns that
    start within the window, up to a socket error. *)
Fixpoint received (start_time timeout : Z) (turns : list iteration)
    : list (list byte * (string * Z)) :=
  match turns with
  | [] => []
  | it :: rest =>
      if clock it - start_time <? timeout
      then match recvfrom it with
           | RecvDatagram data addr => (data, addr) :: received start_time timeout rest
           | RecvTimeout => received start_time timeout rest
           | RecvError => []
           end
      else []
  end.

(** The host a datagram comes from: [addr[0]]. *)
Definition sender (dg : list byte * (string * Z)) : string := dg.2.1.

(** The first datagram of each sending host, in arrival order; [seen] are
    the hosts already met. *)
Fixpoint first_by_host (seen : list string) (l : list (list byte * (string * Z)))
    : list (list byte * (string * Z)) :=
  match l with
  | [] => []
  | (data, addr) :: rest =>
      if bool_decide (addr.1 ∈ seen)
      then first_by_host seen rest
      else (data, addr) :: first_by_host (addr.1 :: seen) rest
  end.

(** The listener's socket is set up: the three calls succeed and the
    timeout is one [settimeout] accepts. *)
Definition setup_ok (timeout : Z) (env : listener_env) : bool :=
  l_socket_ok env && l_setsockopt_ok env && l_bind_ok env && (0 <=? timeout).

(** The one line [send_discovery_broadcast] prints once its socket is
    set up: that the broadcast was sent, or the error of [sendto]. *)
Definition send_line (env : prober_env) : line :=
  if p_sendto_ok env then SentBroadcast else ErrorSending OSError.

Section Notions.
Context `{Codec}.

(** A payload on which line 57 raises: it is not UTF-8 text, or it is
    text that [json.loads] refuses.  Text that [json.loads] reads as
    something other than an object, a number or an array, is not among
    these: it decodes. *)
Definition undecodable (data : list byte) : Prop :=
  (∃ e, utf8_decode data = Raise e)
  ∨ (∃ text e, utf8_decode data = Ok text ∧ json_loads text = Raise e).

(** The global list after the body of the loop has run on a datagram. *)
Definition store (ds : list json) (dg : list byte * (string * Z)) : list json :=
  devices_after (process_datagram dg.1 dg.2 ds).

(** The document of a datagram, where it has one. *)
Definition document (dg : list byte * (string * Z)) : json :=
  match decoded dg.1 with
  | Ok v => v
  | Raise _ => JNull
  end.

(** A response that is a JSON object. *)
Definition object_response (dg : list byte * (string * Z)) : Prop :=
  dg.1 ≠ [] ∧ ∃ m, decoded dg.1 = Ok (JDict m).

(** A response that is a JSON object whose [ip] field is the address it
    comes from. *)
Definition truthful (dg : list byte * (string * Z)) : Prop :=
  dg.1 ≠ [] ∧ ∃ m, decoded dg.1 = Ok (JDict m) ∧ m !! "ip" = Some (JStr (sender dg)).

(** A response that is a JSON object with no [ip] field, or with the
    address it comes from in it. *)
Definition own_or_no_ip (dg : list byte * (string * Z)) : Prop :=
  dg.1 ≠ [] ∧ ∃ m, decoded dg.1 = Ok (JDict m)
                   ∧ (m !! "ip" = None ∨ m !! "ip" = Some (JStr (sender dg))).

End Notions.

(** ** Sessions used as examples *)
Module Examples.
Import Fragment.

(** The two responders of the protocol description. *)
Definition dev_A : list byte :=
  payload "{'hostname':'dev-A','ip':'10.0.0.5','type':'sensor'}".
Definition dev_B : list byte :=
  payload "{'hostname':'dev-B','type':'gateway','version':'1.2'}".
Definition doc_A : json :=
  JDict (<["hostname" := JStr "dev-A"]>
         (<["ip" := JStr "10.0.0.5"]> (<["type" := JStr "sensor"]> ∅))).
Definition doc_B : json :=
  JDict (<["hostname" := JStr "dev-B"]>
         (<["type" := JStr "gateway"]> (<["version" := JStr "1.2"]> ∅))).

(** A response whose [ip] field names another host. *)
Definition spoof : list byte := payload "{'ip':'10.0.0.5'}".
Definition doc_spoof : json := JDict (<["ip" := JStr "10.0.0.5"]> ∅).

(** A response with a key the script does not know. *)
Definition dev_C : list byte := payload "{'ip':'10.0.0.7','uptime':86400}".
Definition doc_C : json :=
  JDict (<["ip" := JStr "10.0.0.7"]> (<["uptime" := JInt 86400]> ∅)).

(** A datagram from [host], received when the clock reads [t]. *)
Definition from (host : string) (t : Z) (data : list byte) : iteration :=
  mkIteration t (RecvDatagram data (host, 5678)).

(** A listener whose socket calls succeed, started when the clock reads
    [0], and a prober whose calls succeed. *)
Definition hears (turns : list iteration) : listener_env :=
  mkListenerEnv true true true 0 turns.
Definition prober_ok : prober_env := mkProberEnv true true true.

End Examples.

Section SessionNotions.
Context `{Codec}.
Variable timeout : Z.
Variable lenv : listener_env.
Variable penv : prober_env.

(** What is left of a thread, run on its own. *)
Definition exec_thread (t : thread_state) : M unit :=
  match t with
  | Running rest => exec rest
  | Raised e => raise e
  end.

(** The main thread has run its first [k] statements. *)
Definition main_at (k : nat) (c : config) : Prop :=
  main c = Running (drop k (main_steps penv)).

(** What holds of the process at every point of a session called with
    [ds0] in the global list. *)
Record session_inv (ds0 : list json) (c : config) : Prop := {
  (* the main thread is somewhere in [main_steps], or a socket call of
     the prober has raised in it *)
  inv_main :
    (∃ k, (k ≤ 7)%nat ∧ main_at k c
          ∧ ((2 ≤ k)%nat → p_socket_ok penv = true)
          ∧ ((3 ≤ k)%nat → p_setsockopt_ok penv = true)
          ∧ ((4 ≤ k)%nat → p_sendto_ok penv = false →
             ErrorSending OSError ∈ stdout c)
          ∧ ((6 ≤ k)%nat → ∃ l, listener c = Some l ∧ finished l = true)
          ∧ (k = 0%nat ↔ listener c = None))
    ∨ (main c = Raised OSError
       ∧ p_socket_ok penv && p_setsockopt_ok penv = false
       ∧ listener c ≠ None);
  (* nothing has run before the thread is started *)
  inv_history :
    match listener c with
    | None => history c = [] ∧ discovered_devices c = ds0
    | Some _ => ∃ h, history c = ThreadStart :: h
    end;
  (* the listener, run from here on its own, ends as it does when run
     from the start on its own *)
  inv_listener :
    ∀ l, listener c = Some l →
      result (exec_thread l (discovered_devices c))
      = result (listen_for_responses timeout lenv ds0)
      ∧ devices_after (exec_thread l (discovered_devices c))
        = devices_after (listen_for_responses timeout lenv ds0)
}.

End SessionNotions.

(** ** Notions of the further properties *)

(** Does a [recvfrom] within the window raise a socket error other than a
    timeout? *)
Fixpoint socket_error (start_time timeout : Z) (turns : list iteration) : bool :=
  match turns with
  | [] => false
  | it :: rest =>
      if clock it - start_time <? timeout
      then match recvfrom it with
           | RecvError => true
           | _ => socket_error start_time timeout rest
           end
      else false
  end.

(** A turn in which nothing is to be read: the [recvfrom] times out or
    returns no data. *)
Definition idle (r : recv) : Prop :=
  r = RecvTimeout ∨ ∃ addr, r = RecvDatagram [] addr.

(** The line the summary prints for a list. *)
Definition summary_line (ds : list json) : line :=
  match ds with
  | [] => NoDevices
  | _ :: _ => FoundDevices (List.length ds)
  end.

(** A statement that leaves the records of the list in place and at most
    adds some at its end. *)
Definition appending (stmt : M unit) : Prop :=
  ∀ ds, ∃ new, devices_after (stmt ds) = ds ++ new.

(** The statements of the main thread, as opposed to the listener's. *)
Definition of_main (l : label) : bool :=
  match l with
  | ThreadStart | ProbeSocket | ProbeSetsockopt | ProbeSendto
  | ProbeClose | ThreadJoin | Summary => true
  | _ => false
  end.

(** How often [sendto] was called: the statement is counted whether the
    call returned or raised. *)
Definition is_send (l : label) : bool :=
  match l with ProbeSendto => true | _ => false end.
Definition sendto_calls (h : list label) : nat :=
  List.length (List.filter is_send h).

Section OrderNotions.
Context `{Codec}.
Variable timeout : Z.
Variable lenv : listener_env.
Variable penv : prober_env.

(** Each thread runs its statements in the order of its program: the
    main thread has run the first [k] of [main_steps] and holds the rest,
    or has raised in one of the first three; the listener, once started,
    has run the first [j] of [listener_steps] and, while it runs, holds
    the rest. *)
Record program_order (c : config) : Prop := {
  order_main :
    ∃ k, List.filter of_main (history c) = (take k (main_steps penv)).*1
         ∧ match main c with
           | Running rest => rest = drop k (main_steps penv)
           | Raised _ => (k ≤ 3)%nat
           end;
  order_listener :
    ∃ j, List.filter (λ l, negb (of_main l)) (history c)
         = (take j (listener_steps timeout lenv)).*1
         ∧ match listener c with
           | None => j = 0%nat
           | Some (Running rest) => rest = drop j (listener_steps timeout lenv)
           | Some (Raised _) => True
           end
}.

End OrderNotions.

(** * Theorems *)

(** ** Statements, one by one *)

Ltac unfold_M :=
  unfold mbind, M_bind, mret, M_ret, bind, try_except, ret, raise, lift,
    print, append, devices, syscall, settimeout, result, devices_after, printed in *.

Section StatementFacts.
Context `{Codec}.

Lemma print_device_info_devices v ds :
  devices_after (print_device_info v ds) = ds.
Proof.
  unfold print_device_info, print_value. unfold_M.
  destruct v; simpl; try reflexivity.
  repeat (destruct (stdout_encodes _); simpl; try reflexivity);
    destruct (m !! "version"); simpl; try reflexivity;
    destruct (stdout_encodes _); reflexivity.
Qed.

(** Printing an object fails on nothing but a value that standard output
    cannot encode. *)
Lemma print_device_info_dict m ds :
  result (print_device_info (JDict m) ds) = Ok tt
  ∨ result (print_device_info (JDict m) ds) = Raise UnicodeEncodeError.
Proof.
  unfold print_device_info, print_value. unfold_M. simpl.
  repeat (destruct (stdout_encodes _); simpl; auto);
    destruct (m !! "version"); simpl; auto;
    destruct (stdout_encodes _); simpl; auto.
Qed.

Lemma print_device_info_other v ds :
  is_dict v = false → print_device_info v ds = (Raise AttributeError, ds, [Banner]).
Proof.
  intros Hv. unfold print_device_info. unfold_M.
  destruct v; simpl; try reflexivity. discriminate.
Qed.

(** The comprehension of line 59 over documents that are all objects. *)
Lemma ip_fields_of_dicts ds :
  Forall (λ d, is_dict d = true) ds →
  ∃ ips, comprehension (λ d, py_get d "ip" JNull) ds = Ok ips
         ∧ ∀ host, py_in host ips = existsb (same_ip host) ds.
Proof.
  induction 1 as [|d ds Hd _ (ips & Hips & Hin)]; simpl.
  - exists []. split; [reflexivity | intros; reflexivity].
  - destruct d; try discriminate. simpl. rewrite Hips.
    eexists. split; [reflexivity|]. intros host. simpl.
    rewrite Hin. reflexivity.
Qed.

(** ... and over a list that holds anything else. *)
Lemma ip_fields_of_other ds :
  Exists (λ d, is_dict d = false) ds →
  comprehension (λ d, py_get d "ip" JNull) ds = Raise AttributeError.
Proof.
  induction 1 as [d ds Hd | d ds _ IH]; simpl.
  - destruct d; try discriminate; reflexivity.
  - rewrite IH. destruct (py_get d "ip" JNull) eqn:E; [reflexivity|].
    destruct d; simpl in E; congruence.
Qed.

Lemma undecodable_decoded data :
  undecodable data ↔ ∃ e, decoded data = Raise e.
Proof.
  unfold undecodable, decoded. split.
  - intros [[e He] | (text & e & Ht & He)].
    + rewrite He. eauto.
    + rewrite Ht, He. eauto.
  - intros [e He]. destruct (utf8_decode data) as [text|e'] eqn:Ht; eauto.
Qed.

(** The body of the loop never raises. *)
Lemma process_datagram_result data addr ds :
  result (process_datagram data addr ds) = Ok tt.
Proof.
  unfold process_datagram. destruct data as [|b data]; [reflexivity|].
  unfold decode_and_store, on_error. unfold_M.
  destruct (decoded (b :: data)) as [v|e]; simpl.
  - destruct (comprehension _ ds) as [ips|e]; simpl.
    + destruct (py_in addr.1 ips); simpl; [reflexivity|].
      destruct (print_device_info v (ds ++ [v])) as [[[[]|e] ds'] out]; simpl.
      * reflexivity.
      * destruct e; reflexivity.
    + destruct e; reflexivity.
  - destruct e; reflexivity.
Qed.

Lemma store_undecodable ds dg : undecodable dg.1 → store ds dg = ds.
Proof.
  intros [e He]%undecodable_decoded. unfold store, process_datagram.
  destruct dg.1 as [|b data]; [reflexivity|].
  unfold decode_and_store, on_error. unfold_M. rewrite He. simpl.
  destruct e; reflexivity.
Qed.

Lemma store_empty ds dg : dg.1 = [] → store ds dg = ds.
Proof. intros E. unfold store, process_datagram. rewrite E. reflexivity. Qed.

Lemma store_decoded ds dg v :
  dg.1 ≠ [] → decoded dg.1 = Ok v → Forall (λ d, is_dict d = true) ds →
  store ds dg = if existsb (same_ip dg.2.1) ds then ds else ds ++ [v].
Proof.
  intros Hne Hv (ips & Hips & Hin)%ip_fields_of_dicts.
  unfold store, process_datagram. destruct dg.1 as [|b data]; [done|].
  unfold decode_and_store, on_error. unfold_M. rewrite Hv. simpl.
  rewrite Hips. simpl. rewrite Hin.
  destruct (existsb (same_ip dg.2.1) ds); simpl; [reflexivity|].
  pose proof (print_device_info_devices v (ds ++ [v])) as Hp.
  unfold devices_after in Hp.
  destruct (print_device_info v (ds ++ [v])) as [[[[]|e] ds'] out]; simpl in *.
  - exact Hp.
  - destruct e; exact Hp.
Qed.

Lemma store_blocked ds dg :
  Exists (λ d, is_dict d = false) ds → store ds dg = ds.
Proof.
  intros Hex%ip_fields_of_other.
  unfold store, process_datagram. destruct dg.1 as [|b data]; [reflexivity|].
  unfold decode_and_store, on_error. unfold_M.
  destruct (decoded (b :: data)) as [v|e]; simpl.
  - rewrite Hex. reflexivity.
  - destruct e; reflexivity.
Qed.

End StatementFacts.

(** ** The first datagram of each sender *)

Lemma first_by_host_fresh seen l dg :
  dg ∈ first_by_host seen l → sender dg ∉ seen.
Proof.
  revert seen. induction l as [|[data addr] l IH]; intros seen; simpl.
  { intros Hin. inversion Hin. }
  case_bool_decide as Hseen.
  - apply IH.
  - intros [->|Hin]%elem_of_cons; [exact Hseen|].
    apply IH in Hin. intros Hs. apply Hin. by right.
Qed.

Lemma first_by_host_NoDup seen l : NoDup (map sender (first_by_host seen l)).
Proof.
  revert seen. induction l as [|[data addr] l IH]; intros seen; simpl.
  { constructor. }
  case_bool_decide as Hseen; [apply IH|].
  simpl. constructor; [|apply IH].
  intros (dg & Heq & Hin)%list_elem_of_fmap.
  apply first_by_host_fresh in Hin. apply Hin. rewrite <- Heq. by left.
Qed.

Lemma first_by_host_covers seen l dg :
  dg ∈ l → sender dg ∈ seen ∨ sender dg ∈ map sender (first_by_host seen l).
Proof.
  revert seen. induction l as [|[data addr] l IH]; intros seen Hin.
  { inversion Hin. }
  simpl. apply elem_of_cons in Hin as [->|Hin].
  - case_bool_decide as Hseen; [by left|]. right. simpl. by left.
  - case_bool_decide as Hseen; [by apply IH|].
    destruct (IH (addr.1 :: seen) Hin) as [[Hs|Hs]%elem_of_cons|Hs].
    + right. simpl. rewrite Hs. by left.
    + by left.
    + right. simpl. by right.
Qed.

Lemma first_by_host_keeps_first seen before dg after :
  sender dg ∉ seen → sender dg ∉ map sender before →
  dg ∈ first_by_host seen (before ++ dg :: after).
Proof.
  revert seen. induction before as [|[data addr] before IH]; intros seen Hseen Hbefore.
  - destruct dg as [data addr]. simpl. unfold sender in Hseen. simpl in Hseen.
    rewrite bool_decide_eq_false_2 by done. by left.
  - simpl in *. apply not_elem_of_cons in Hbefore as [Hne Hbefore].
    case_bool_decide as Hs.
    + by apply IH.
    + right. apply IH; [|done].
      apply not_elem_of_cons. split; [|done]. exact Hne.
Qed.

(** ** The loop *)

Section LoopFacts.
Context `{Codec}.

Lemma bind_ok {A B} (c : M A) (k : A → M B) ds a ds1 out1 :
  c ds = (Ok a, ds1, out1) →
  result (bind c k ds) = result (k a ds1)
  ∧ devices_after (bind c k ds) = devices_after (k a ds1)
  ∧ printed (bind c k ds) = out1 ++ printed (k a ds1).
Proof.
  intros E. unfold bind, result, devices_after, printed. rewrite E.
  destruct (k a ds1) as [[r ds2] out2]. done.
Qed.

Lemma bind_raise {A B} (c : M A) (k : A → M B) ds e ds1 out1 :
  c ds = (Raise e, ds1, out1) → bind c k ds = (Raise e, ds1, out1).
Proof. intros E. unfold bind. rewrite E. reflexivity. Qed.

(** A turn on a datagram returns and leaves [store] in the list. *)
Lemma turn_datagram data addr ds :
  ∃ out, turn (RecvDatagram data addr) ds = (Ok tt, store ds (data, addr), out).
Proof.
  pose proof (process_datagram_result data addr ds) as Hr.
  unfold store, turn, sock_recvfrom. unfold_M. simpl.
  destruct (process_datagram data addr ds) as [[r ds1] out]. simpl in *.
  subst r. eauto.
Qed.

Lemma turn_timeout ds : turn RecvTimeout ds = (Ok tt, ds, []).
Proof. reflexivity. Qed.

Lemma turn_error ds : turn RecvError ds = (Raise OSError, ds, []).
Proof. reflexivity. Qed.

Lemma listen_loop_cons start timeout it rest :
  listen_loop start timeout (it :: rest)
  = if clock it - start <? timeout
    then bind (turn (recvfrom it)) (λ _, listen_loop start timeout rest)
    else ret tt.
Proof. reflexivity. Qed.

(** The list after the loop: [store] folded over what was received. *)
Lemma listen_loop_devices start timeout turns ds :
  devices_after (listen_loop start timeout turns ds)
  = fold_left store (received start timeout turns) ds.
Proof.
  revert ds. induction turns as [|it rest IH]; intros ds; [reflexivity|].
  rewrite listen_loop_cons. simpl.
  destruct (clock it - start <? timeout); [|reflexivity].
  destruct (recvfrom it) as [data addr| |].
  - destruct (turn_datagram data addr ds) as [out E].
    destruct (bind_ok _ (λ _, listen_loop start timeout rest) _ _ _ _ E) as (_ & -> & _).
    simpl. apply IH.
  - destruct (bind_ok (turn RecvTimeout) (λ _, listen_loop start timeout rest)
                       ds tt ds [] eq_refl) as (_ & -> & _).
    apply IH.
  - reflexivity.
Qed.

Lemma listen_for_responses_loop timeout env ds :
  setup_ok timeout env = true →
  listen_for_responses timeout env ds
  = (let '(r, ds', out) := listen_loop (l_start_time env) timeout (l_turns env) ds in
     (r, ds', (Listening timeout :: out))).
Proof.
  unfold setup_ok, listen_for_responses. intros Hs.
  apply andb_prop in Hs as [Hs Ht]. apply andb_prop in Hs as [Hs Hb].
  apply andb_prop in Hs as [Hs Ho].
  assert ((timeout <? 0) = false) as Hn by lia.
  unfold_M. rewrite Hs, Ho, Hb, Hn. simpl.
  destruct (listen_loop _ _ _ ds) as [[r ds'] out]. reflexivity.
Qed.

Lemma listen_for_responses_no_setup timeout env ds :
  setup_ok timeout env = false →
  ∃ e, listen_for_responses timeout env ds = (Raise e, ds, []).
Proof.
  unfold setup_ok, listen_for_responses. intros Hs. unfold_M.
  destruct (l_socket_ok env); simpl; eauto.
  destruct (l_setsockopt_ok env); simpl; eauto.
  destruct (timeout <? 0) eqn:Ht; simpl; eauto.
  destruct (l_bind_ok env); simpl; eauto.
  simpl in Hs. lia.
Qed.

Lemma listen_for_responses_devices timeout env ds :
  devices_after (listen_for_responses timeout env ds)
  = if setup_ok timeout env
    then fold_left store (received (l_start_time env) timeout (l_turns env)) ds
    else ds.
Proof.
  destruct (setup_ok timeout env) eqn:Hs.
  - rewrite listen_for_responses_loop by done.
    rewrite <- listen_loop_devices. unfold devices_after.
    destruct (listen_loop _ _ _ ds) as [[r ds'] out]. reflexivity.
  - destruct (listen_for_responses_no_setup timeout env ds Hs) as [e ->]. reflexivity.
Qed.

(** Once the list holds something that is not an object, it stays as it
    is. *)
Lemma fold_store_blocked l ds :
  Exists (λ d, is_dict d = false) ds → fold_left store l ds = ds.
Proof.
  intros Hex. induction l as [|dg l IH]; [reflexivity|].
  simpl. rewrite store_blocked by done. exact IH.
Qed.

(** [store] only appends. *)
Lemma store_appends ds dg : ∃ new, store ds dg = ds ++ new.
Proof.
  unfold store, process_datagram. destruct dg.1 as [|b data].
  { exists []. by rewrite app_nil_r. }
  unfold decode_and_store, on_error. unfold_M.
  destruct (decoded (b :: data)) as [v|e]; simpl.
  - destruct (comprehension _ ds) as [ips|e]; simpl.
    + destruct (py_in dg.2.1 ips); simpl.
      { exists []. by rewrite app_nil_r. }
      pose proof (print_device_info_devices v (ds ++ [v])) as Hp.
      unfold devices_after in Hp.
      destruct (print_device_info v (ds ++ [v])) as [[[[]|e] ds'] out]; simpl in *.
      * exists [v]. done.
      * exists [v]. destruct e; done.
    + exists []. rewrite app_nil_r. destruct e; done.
  - exists []. rewrite app_nil_r. destruct e; done.
Qed.

Lemma fold_store_appends l ds : ∃ new, fold_left store l ds = ds ++ new.
Proof.
  revert ds. induction l as [|dg l IH]; intros ds; simpl.
  - exists []. by rewrite app_nil_r.
  - destruct (store_appends ds dg) as [n1 ->].
    destruct (IH (ds ++ n1)) as [n2 ->]. exists (n1 ++ n2). by rewrite app_assoc.
Qed.

(** Objects that carry their sender's address: the list keeps one
    document per host, the first.  [seen] are the hosts whose address is
    the [ip] of a stored document. *)
Lemma fold_store_truthful l ds seen :
  Forall truthful l →
  Forall (λ d, is_dict d = true) ds →
  (∀ host, existsb (same_ip host) ds = bool_decide (host ∈ seen)) →
  fold_left store l ds = ds ++ map document (first_by_host seen l).
Proof.
  intros Hl. revert ds seen.
  induction Hl as [|dg l (Hne & m & Hm & Hip) _ IH]; intros ds seen Hds Hseen; simpl.
  { by rewrite app_nil_r. }
  rewrite (store_decoded ds dg (JDict m)) by done.
  destruct dg as [data addr]. unfold sender in *. simpl in *.
  rewrite Hseen. destruct (bool_decide (addr.1 ∈ seen)).
  - by apply IH.
  - rewrite (IH (ds ++ [JDict m]) (addr.1 :: seen)).
    + simpl. unfold document at 2. simpl. rewrite Hm. by rewrite <- app_assoc.
    + apply Forall_app. split; [done|]. by constructor.
    + intros host. rewrite existsb_app, Hseen. simpl.
      unfold same_ip. simpl. rewrite Hip. simpl.
      rewrite orb_false_r.
      destruct (string_dec host addr.1) as [->|Hneq].
      * rewrite orb_true_r. symmetry. apply bool_decide_eq_true. by left.
      * rewrite orb_false_r. apply bool_decide_ext. rewrite elem_of_cons. tauto.
Qed.

(** Objects of which none names the address of a later sender: all of
    them are kept. *)
Lemma fold_store_unclaimed l ds :
  Forall object_response l →
  Forall (λ d, is_dict d = true) ds →
  Forall (λ dg, existsb (same_ip (sender dg)) ds = false) l →
  ForallOrdPairs (λ dg dg', same_ip (sender dg') (document dg) = false) l →
  fold_left store l ds = ds ++ map document l.
Proof.
  intros Hl. revert ds.
  induction Hl as [|dg l (Hne & m & Hm) _ IH]; intros ds Hds Hfresh Hpairs; simpl.
  { by rewrite app_nil_r. }
  inversion Hfresh as [|? ? Hdg Hfresh']; subst.
  inversion Hpairs as [|? ? Hfirst Hpairs']; subst.
  rewrite (store_decoded ds dg (JDict m)) by done.
  unfold sender in Hdg. rewrite Hdg.
  assert (document dg = JDict m) as Hdoc by (unfold document; by rewrite Hm).
  rewrite IH.
  - rewrite Hdoc. by rewrite <- app_assoc.
  - apply Forall_app. split; [done|]. by constructor.
  - rewrite Forall_forall in Hfresh', Hfirst. apply Forall_forall.
    intros dg' Hin. rewrite existsb_app, (Hfresh' _ Hin). simpl.
    rewrite <- Hdoc, (Hfirst _ Hin). reflexivity.
  - done.
Qed.

End LoopFacts.

(** ** The listener: what is stored, and under which key *)

Section ListenerClaims.
Context `{Codec}.

Lemma store_cases ds dg :
  store ds dg = ds ∨ ∃ v, decoded dg.1 = Ok v ∧ store ds dg = ds ++ [v].
Proof.
  unfold store, process_datagram. destruct dg.1 as [|b data]; [by left|].
  unfold decode_and_store, on_error. unfold_M.
  destruct (decoded (b :: data)) as [v|e]; simpl.
  - destruct (comprehension _ ds) as [ips|e]; simpl.
    + destruct (py_in dg.2.1 ips); simpl; [by left|].
      right. exists v. split; [done|].
      pose proof (print_device_info_devices v (ds ++ [v])) as Hp.
      unfold devices_after in Hp.
      destruct (print_device_info v (ds ++ [v])) as [[[[]|e] ds'] out]; simpl in *.
      * done.
      * destruct e; done.
    + left. destruct e; done.
  - left. destruct e; done.
Qed.

(** C1 (amended): a datagram that decodes, met with a list of objects,
    is discarded exactly when the address it really comes from is the
    [ip] field of a stored document, and is stored as decoded otherwise:
    the key a stored record is found under is its payload's [ip] field,
    not the address it was sent from. *)
Theorem dedup_key_is_the_ip_field ds data host port v :
  data ≠ [] → decoded data = Ok v → Forall (λ d, is_dict d = true) ds →
  devices_after (process_datagram data (host, port) ds)
  = if existsb (same_ip host) ds then ds else ds ++ [v].
Proof.
  intros Hne Hv Hds. exact (store_decoded ds (data, (host, port)) v Hne Hv Hds).
Qed.

(** C2 (amended): in a session that starts with an empty list and whose
    responses are all objects carrying their sender's address in [ip],
    the result holds the document of the first datagram of every sender
    and nothing else: no two records come from one address, every sender
    has its record, and what a later datagram of the same sender says is
    neither merged in nor put in its place. *)
Theorem one_record_per_truthful_sender timeout env :
  setup_ok timeout env = true →
  Forall truthful (received (l_start_time env) timeout (l_turns env)) →
  let heard := received (l_start_time env) timeout (l_turns env) in
  let kept := first_by_host [] heard in
  devices_after (listen_for_responses timeout env []) = map document kept
  ∧ NoDup (map sender kept)
  ∧ (∀ dg, dg ∈ heard → sender dg ∈ map sender kept)
  ∧ (∀ before dg after, heard = before ++ dg :: after →
       sender dg ∉ map sender before → dg ∈ kept).
Proof.
  intros Hs Htruth heard kept. repeat split.
  - rewrite listen_for_responses_devices, Hs.
    rewrite (fold_store_truthful _ [] []); [done|done|done|].
    intros host. reflexivity.
  - apply first_by_host_NoDup.
  - intros dg Hin.
    destruct (first_by_host_covers [] heard dg Hin) as [Hno|Hyes]; [|done].
    inversion Hno.
  - intros before dg after Hsplit Hfirst. subst kept. rewrite Hsplit.
    apply first_by_host_keeps_first; [|done]. intros Hno. inversion Hno.
Qed.

(** C3 (amended): in a session that starts with an empty list, if the N
    responses received are all objects and no response's [ip] field is
    the address a later response comes from, the result holds exactly
    the N documents, in the order of arrival. *)
Theorem every_unclaimed_response_is_kept timeout env :
  setup_ok timeout env = true →
  Forall object_response (received (l_start_time env) timeout (l_turns env)) →
  ForallOrdPairs (λ dg dg', same_ip (sender dg') (document dg) = false)
                 (received (l_start_time env) timeout (l_turns env)) →
  let heard := received (l_start_time env) timeout (l_turns env) in
  devices_after (listen_for_responses timeout env []) = map document heard
  ∧ List.length (devices_after (listen_for_responses timeout env []))
    = List.length heard.
Proof.
  intros Hs Hobj Hpairs heard.
  assert (devices_after (listen_for_responses timeout env []) = map document heard) as E.
  { rewrite listen_for_responses_devices, Hs.
    rewrite fold_store_unclaimed; [done|done|done| |done].
    apply Forall_forall. intros dg _. reflexivity. }
  split; [exact E|]. rewrite E. apply length_map.
Qed.

(** Distinct senders that give their own address, or none, are a case of
    it: none names the address of another. *)
Lemma own_addresses_are_unclaimed l :
  NoDup (map sender l) → Forall own_or_no_ip l →
  Forall object_response l
  ∧ ForallOrdPairs (λ dg dg', same_ip (sender dg') (document dg) = false) l.
Proof.
  intros Hnd Hown. split.
  { eapply Forall_impl; [exact Hown|]. intros dg (Hne & m & Hm & _).
    split; [done | eauto]. }
  induction Hown as [|dg l (Hne & m & Hm & Hip) Hown IH]; [constructor|].
  apply NoDup_cons in Hnd as [Hfresh Hnd].
  constructor; [|by apply IH].
  apply Forall_forall. intros dg' Hin.
  unfold document, same_ip. rewrite Hm. simpl.
  destruct Hip as [-> | ->]; simpl; [done|].
  destruct (string_dec (sender dg') (sender dg)) as [E|]; [|done].
  exfalso. apply Hfresh. rewrite <- E. apply list_elem_of_fmap. eauto.
Qed.

(** C5 (amended): a datagram that decodes to something other than an
    object, received while the list holds only objects of which none has
    the sender's address as [ip], is appended; after it the list never
    changes again in the session, whatever arrives, and every later
    datagram that decodes fails on the [.get] of line 59. *)
Theorem non_object_blocks_the_list start timeout it rest ds data host port v :
  clock it - start < timeout →
  recvfrom it = RecvDatagram data (host, port) →
  data ≠ [] → decoded data = Ok v → is_dict v = false →
  Forall (λ d, is_dict d = true) ds → existsb (same_ip host) ds = false →
  devices_after (listen_loop start timeout (it :: rest) ds) = ds ++ [v]
  ∧ ∀ data' addr' v', data' ≠ [] → decoded data' = Ok v' →
      process_datagram data' addr' (ds ++ [v])
      = (Ok tt, ds ++ [v], [ErrorProcessing addr'.1 AttributeError]).
Proof.
  intros Hwin Hrecv Hne Hv Hnd Hds Hfresh.
  assert (Exists (λ d, is_dict d = false) (ds ++ [v])) as Hblocked.
  { apply Exists_app. right. by constructor. }
  split.
  - rewrite listen_loop_devices. simpl.
    assert ((clock it - start <? timeout) = true) as -> by lia.
    rewrite Hrecv. simpl.
    rewrite (store_decoded ds (data, (host, port)) v Hne Hv Hds). simpl.
    unfold sender. simpl. rewrite Hfresh. by apply fold_store_blocked.
  - intros data' addr' v' Hne' Hv'. unfold process_datagram.
    destruct data' as [|b data']; [done|].
    unfold decode_and_store, on_error. unfold_M. rewrite Hv'. simpl.
    rewrite (ip_fields_of_other _ Hblocked). reflexivity.
Qed.

(** C7 (amended): a datagram whose payload does not decode, received
    within the window, adds no record and does not end the loop: the turn
    returns normally with the list as it was, and the session ends with
    the result and the list it would have without that datagram, so what
    arrives later is stored all the same. *)
Theorem undecodable_datagram_is_passed_over start timeout before it after ds data addr :
  recvfrom it = RecvDatagram data addr → undecodable data →
  clock it - start < timeout →
  result (turn (recvfrom it) ds) = Ok tt
  ∧ devices_after (turn (recvfrom it) ds) = ds
  ∧ result (listen_loop start timeout (before ++ it :: after) ds)
    = result (listen_loop start timeout (before ++ after) ds)
  ∧ devices_after (listen_loop start timeout (before ++ it :: after) ds)
    = devices_after (listen_loop start timeout (before ++ after) ds).
Proof.
  intros Hrecv Hbad Hwin. rewrite Hrecv.
  destruct (turn_datagram data addr ds) as [out E].
  rewrite (store_undecodable ds (data, addr) Hbad) in E.
  split; [by rewrite E|]. split; [by rewrite E|].
  revert ds out E. induction before as [|x before IH]; intros ds out E.
  - rewrite !app_nil_l, listen_loop_cons.
    assert ((clock it - start <? timeout) = true) as -> by lia.
    rewrite Hrecv.
    destruct (bind_ok _ (λ _, listen_loop start timeout after) _ _ _ _ E)
      as (Hr & Hd & _).
    split; [exact Hr | exact Hd].
  - rewrite <- !app_comm_cons, !listen_loop_cons.
    destruct (clock x - start <? timeout); [|done].
    destruct (turn (recvfrom x) ds) as [[[[]|e] ds1] out1] eqn:Ex.
    + destruct (bind_ok _ (λ _, listen_loop start timeout (before ++ it :: after))
                  _ _ _ _ Ex) as (-> & -> & _).
      destruct (bind_ok _ (λ _, listen_loop start timeout (before ++ after))
                  _ _ _ _ Ex) as (-> & -> & _).
      destruct (turn_datagram data addr ds1) as [out' E'].
      rewrite (store_undecodable ds1 (data, addr) Hbad) in E'.
      exact (IH ds1 out' E').
    + rewrite !(bind_raise _ _ _ _ _ _ Ex). done.
Qed.

(** Every record of a session that starts with an empty list is the
    document of a datagram received in it. *)
Lemma records_come_from_datagrams l ds r :
  r ∈ fold_left store l ds → r ∈ ds ∨ ∃ dg, dg ∈ l ∧ decoded dg.1 = Ok r.
Proof.
  revert ds. induction l as [|dg l IH]; intros ds; simpl; [by left|].
  intros [Hin | (dg' & Hin & Hdg')]%IH.
  - destruct (store_cases ds dg) as [E | (v & Hv & E)]; rewrite E in Hin.
    + by left.
    + apply elem_of_app in Hin as [Hin | ->%list_elem_of_singleton]; [by left|].
      right. exists dg. split; [by left | done].
  - right. exists dg'. split; [by right | done].
Qed.

End ListenerClaims.

(** ** The two threads *)

Section SessionFacts.
Context `{Codec}.
Variable timeout : Z.
Variable lenv : listener_env.
Variable penv : prober_env.

Lemma bind_ext {A B} (c : M A) (k k' : A → M B) ds :
  (∀ a ds', k a ds' = k' a ds') → bind c k ds = bind c k' ds.
Proof.
  intros E. unfold bind. destruct (c ds) as [[[a|e] ds1] out1]; [|done].
  by rewrite E.
Qed.

Lemma exec_cons l c rest : exec ((l, c) :: rest) = bind c (λ _, exec rest).
Proof. reflexivity. Qed.

Lemma exec_loop_steps start turns ds :
  exec (loop_steps start timeout turns ++ [(ListenClose, ret tt)]) ds
  = listen_loop start timeout turns ds.
Proof.
  revert ds. induction turns as [|it rest IH]; intros ds; [reflexivity|].
  rewrite listen_loop_cons. simpl.
  destruct (clock it - start <? timeout); [|reflexivity].
  simpl. unfold mbind, M_bind. apply bind_ext. intros _ ds'. apply IH.
Qed.

(** The listener's statements, run in a row, are [listen_for_responses]. *)
Lemma exec_listener_steps ds :
  exec (listener_steps timeout lenv) ds = listen_for_responses timeout lenv ds.
Proof.
  unfold listener_steps, listen_for_responses. simpl.
  unfold mbind, M_bind.
  repeat (apply bind_ext; intros _ ?).
  apply exec_loop_steps.
Qed.

(** The prober's statements, run in a row, are
    [send_discovery_broadcast]. *)
Lemma exec_prober_steps ds :
  exec (prober_steps penv) ds = send_discovery_broadcast penv ds.
Proof.
  unfold prober_steps, send_discovery_broadcast, guarded_send. simpl. unfold_M.
  destruct (p_socket_ok penv), (p_setsockopt_ok penv), (p_sendto_ok penv);
    reflexivity.
Qed.

End SessionFacts.

Section SessionInvariant.
Context `{Codec}.
Variable timeout : Z.
Variable lenv : listener_env.
Variable penv : prober_env.
Variable ds0 : list json.

Local Abbreviation inv := (session_inv timeout lenv penv ds0).

(** The main thread stands at statement [k]: the facts on the statements
    before it that are plain are closed at once. *)
Ltac stands_at k :=
  left; exists k; unfold main_at; simpl;
  repeat split; try (intros; lia); try done; try (intros; congruence).

(** A step of the main thread past [start()] adds to a history that
    already begins with [ThreadStart] and leaves the listener alone. *)
Ltac main_moves Hhist :=
  split; simpl;
  [ | by destruct (listener _) as [?|]; [destruct Hhist as [? ->]; eauto|] | done ].

Lemma session_inv_initial : inv (initial penv ds0).
Proof.
  split; simpl.
  - stands_at 0%nat.
  - done.
  - intros l Hl. discriminate.
Qed.

Lemma session_inv_listener_step c : inv c → inv (step timeout lenv ListenerThread c).
Proof.
  intros [Hmain Hhist Hlis]. unfold step.
  destruct (listener c) as [[[|[lab stmt] rest]|e]|] eqn:El;
    try (split; try rewrite El; done).
  destruct (stmt (discovered_devices c)) as [[r ds] out] eqn:Es.
  split; simpl.
  - destruct Hmain as [(k & Hk & Hat & Hs & Ho & Hsend & Hjoin & Hzero) | (Hr & Hbad & Hl)].
    + left. exists k. unfold main_at in *. simpl.
      repeat split; try done.
      * intros Hk4 Hf. apply elem_of_app. left. by apply Hsend.
      * intros Hk6. destruct (Hjoin Hk6) as (l & [= <-] & Hfin). discriminate.
      * intros ->. by destruct Hzero as [Hz _]; specialize (Hz eq_refl).
    + right. done.
  - destruct Hhist as [h Hh]. rewrite Hh. eauto.
  - intros l [= <-]. destruct (Hlis _ eq_refl) as [Hr Hd].
    cbn [exec_thread] in Hr, Hd. rewrite exec_cons in Hr, Hd.
    destruct r as [[]|e]; cbn [continue exec_thread].
    + destruct (bind_ok _ (λ _, exec rest) _ _ _ _ Es) as (Hr' & Hd' & _).
      rewrite <- Hr, <- Hd. done.
    + rewrite (bind_raise _ _ _ _ _ _ Es) in Hr, Hd. done.
Qed.

Lemma session_inv_main_step c : inv c → inv (step timeout lenv MainThread c).
Proof.
  intros [Hmain Hhist Hlis].
  destruct Hmain as [(k & Hk & Hat & Hs & Ho & Hsend & Hjoin & Hzero) | (Hr & Hbad & Hl)].
  2:{ unfold step. rewrite Hr. split; try done. by right. }
  unfold main_at in Hat. unfold step.
  assert (k ≠ 0%nat → listener c ≠ None) as Hstarted
    by (intros Hk0 E; by apply Hzero in E).
  destruct k as [|[|[|[|[|[|[|[|k]]]]]]]]; try lia;
    simpl in Hat; rewrite Hat; clear Hk.
  - (* listener_thread.start() *)
    destruct Hzero as [Hz _]. specialize (Hz eq_refl). rewrite Hz in Hhist.
    destruct Hhist as [Hh Hd].
    split; simpl.
    + stands_at 1%nat.
    + rewrite Hh. eauto.
    + intros l [= <-]. cbn [exec_thread]. rewrite Hd, exec_listener_steps. done.
  - (* socket.socket() *)
    pose proof (Hstarted ltac:(lia)) as Hl.
    unfold_M. destruct (p_socket_ok penv) eqn:Eb; simpl; main_moves Hhist.
    + stands_at 2%nat.
    + right. by rewrite Eb.
  - (* sock.setsockopt() *)
    pose proof (Hstarted ltac:(lia)) as Hl.
    unfold_M. destruct (p_setsockopt_ok penv) eqn:Eb; simpl; main_moves Hhist.
    + stands_at 3%nat. intros _. apply Hs. lia.
    + right. by rewrite Eb, andb_false_r.
  - (* sock.sendto(), guarded *)
    pose proof (Hstarted ltac:(lia)) as Hl.
    unfold guarded_send. unfold_M.
    destruct (p_sendto_ok penv) eqn:Eb; simpl; main_moves Hhist.
    + stands_at 4%nat; intros _; first [apply Hs | apply Ho]; lia.
    + stands_at 4%nat; try (intros _; first [apply Hs | apply Ho]; lia).
      intros _ _. apply elem_of_app. right. by left.
  - (* sock.close() *)
    pose proof (Hstarted ltac:(lia)) as Hl.
    unfold_M. simpl. main_moves Hhist.
    stands_at 5%nat; try (intros _; first [apply Hs | apply Ho]; lia).
    intros _ Hf. apply elem_of_app. left. apply Hsend; [lia | done].
  - (* listener_thread.join() *)
    destruct (listener c) as [l|] eqn:El; [|by destruct (Hstarted ltac:(lia))].
    destruct (finished l) eqn:Ef.
    2:{ split; try rewrite El; try done.
        stands_at 5%nat; intros _; first [apply Hs | apply Ho]; lia. }
    split; simpl; try rewrite El; [|destruct Hhist as [h ->]; eauto|done].
    stands_at 6%nat; try (intros _; first [apply Hs | apply Ho]; lia).
    * intros _. apply Hsend. lia.
    * eauto.
  - (* the summary *)
    pose proof (Hstarted ltac:(lia)) as Hl.
    assert (∃ line, summary (discovered_devices c) = (Ok tt, discovered_devices c, [line]))
      as [line ->].
    { unfold summary. unfold_M. destruct (discovered_devices c); simpl; eauto. }
    main_moves Hhist.
    stands_at 7%nat; try (intros _; first [apply Hs | apply Ho | apply Hjoin]; lia).
    intros _ Hf. apply elem_of_app. left. apply Hsend; [lia | done].
  - (* returned *)
    split; try done. stands_at 7%nat. apply Hzero.
Qed.

Lemma session_inv_step t c : inv c → inv (step timeout lenv t c).
Proof.
  destruct t; [apply session_inv_main_step | apply session_inv_listener_step].
Qed.

(** The invariant holds after every schedule. *)
Lemma session_inv_run s c : inv c → inv (run timeout lenv s c).
Proof.
  revert c. induction s as [|t s IH]; intros c Hc; [done|].
  simpl. apply IH. by apply session_inv_step.
Qed.

End SessionInvariant.

Section SessionEnd.
Context `{Codec}.
Variable timeout : Z.
Variable lenv : listener_env.
Variable penv : prober_env.


Lemma run_cons t s c : run timeout lenv (t :: s) c = run timeout lenv s (step timeout lenv t c).
Proof. reflexivity. Qed.

Lemma run_app s1 s2 c : run timeout lenv (s1 ++ s2) c = run timeout lenv s2 (run timeout lenv s1 c).
Proof. apply fold_left_app. Qed.

(** Given enough turns, the listener ends; the main thread is not
    touched meanwhile. *)
Lemma listener_runs_out n c l :
  listener c = Some l →
  (∀ rest, l = Running rest → (List.length rest ≤ n)%nat) →
  main (run timeout lenv (repeat ListenerThread n) c) = main c
  ∧ ∃ l', listener (run timeout lenv (repeat ListenerThread n) c) = Some l'
          ∧ finished l' = true.
Proof.
  revert c l. induction n as [|n IH]; intros c l Hl Hlen.
  - simpl. split; [done|]. exists l. split; [done|].
    destruct l as [[|x rest]|e]; try done.
    specialize (Hlen _ eq_refl). simpl in Hlen. lia.
  - cbn [repeat]. rewrite !run_cons. unfold step. rewrite Hl.
    destruct l as [[|[lab stmt] rest]|e].
    + apply (IH c (Running [])); [done|].
      intros rest [= <-]. simpl. lia.
    + destruct (stmt (discovered_devices c)) as [[r ds] out].
      set (c' := mkConfig _ _ _ _ _).
      destruct (IH c' (continue r rest) eq_refl) as [Hm Hl'].
      { intros rest' E. destruct r; [|done]. injection E as <-.
        specialize (Hlen _ eq_refl). simpl in Hlen. lia. }
      split; [by rewrite Hm | done].
    + apply (IH c (Raised e)); [done|]. intros rest [=].
Qed.

(** Once the listener has ended, the main thread ends too, given enough
    turns. *)
Lemma main_runs_out n c m :
  main c = m →
  (∀ rest, m = Running rest →
     (List.length rest ≤ n)%nat ∧ ThreadStart ∉ map fst rest) →
  (∃ l, listener c = Some l ∧ finished l = true) →
  finished (main (run timeout lenv (repeat MainThread n) c)) = true
  ∧ listener (run timeout lenv (repeat MainThread n) c) = listener c.
Proof.
  revert c m. induction n as [|n IH]; intros c m Hm Hrest Hlis.
  - simpl. split; [|done]. rewrite Hm. destruct m as [[|x rest]|e]; try done.
    destruct (Hrest _ eq_refl) as [Hlen _]. simpl in Hlen. lia.
  - cbn [repeat]. rewrite !run_cons. unfold step. rewrite Hm.
    destruct m as [[|[lab stmt] rest]|e].
    + apply (IH c (Running [])); [done| |done].
      intros rest [= <-]. split; [simpl; lia|]. intros Hin. inversion Hin.
    + destruct (Hrest _ eq_refl) as [Hlen Hstart]. simpl in Hlen, Hstart.
      apply not_elem_of_cons in Hstart as [Hlab Hstart].
      destruct Hlis as (l & Hl & Hfin).
      assert (∀ r, ∀ rest', continue r rest = Running rest' →
                (List.length rest' ≤ n)%nat ∧ ThreadStart ∉ map fst rest') as Hnext.
      { intros r rest' E. destruct r; [|done]. injection E as <-. split; [lia|done]. }
      destruct lab; try done;
        try (destruct (stmt (discovered_devices c)) as [[r ds] out];
             set (c' := mkConfig _ _ _ _ _);
             destruct (IH c' (continue r rest) eq_refl (Hnext r)) as [Hf Hl'];
             [by exists l | done]).
      rewrite Hl, Hfin.
      set (c' := mkConfig _ _ _ _ _).
      destruct (IH c' (Running rest) eq_refl (Hnext (Ok tt))) as [Hf Hl'];
        [by exists l | split; [done|]]. by rewrite Hl'.
    + apply (IH c (Raised e)); [done| |done]. intros rest [=].
Qed.

(** With the listener scheduled first, both threads end. *)
Lemma discover_devices_ends ds :
  finished (main (discover_devices timeout lenv penv ds)) = true
  ∧ ∃ l, listener (discover_devices timeout lenv penv ds) = Some l
         ∧ finished l = true.
Proof.
  unfold discover_devices, listener_first.
  change (MainThread :: ?s) with ([MainThread] ++ s).
  rewrite !run_app.
  set (c1 := run timeout lenv [MainThread] (initial penv ds)).
  destruct (listener_runs_out (List.length (listener_steps timeout lenv)) c1
              (Running (listener_steps timeout lenv)) eq_refl) as [Hm Hl].
  { intros rest [= <-]. done. }
  set (c2 := run timeout lenv (repeat ListenerThread _) c1) in *.
  destruct (main_runs_out (List.length (main_steps penv)) c2 (main c2) eq_refl)
    as [Hf Hl']; [|done|].
  - intros rest E. rewrite Hm in E. injection E as <-. split.
    + simpl. lia.
    + simpl. intros Hin. repeat (apply elem_of_cons in Hin as [Hin|Hin]; [done|]).
      inversion Hin.
  - split; [done|]. by rewrite Hl'.
Qed.

(** What the invariant says of a session whose main thread has ended. *)
Lemma session_end s ds0 :
  let c := run timeout lenv s (initial penv ds0) in
  finished (main c) = true →
  (main c = Running []
   ∧ p_socket_ok penv && p_setsockopt_ok penv = true
   ∧ (p_sendto_ok penv = false → ErrorSending OSError ∈ stdout c)
   ∧ ∃ l, listener c = Some l ∧ finished l = true)
  ∨ (main c = Raised OSError ∧ p_socket_ok penv && p_setsockopt_ok penv = false).
Proof.
  intros c Hfin.
  destruct (session_inv_run timeout lenv penv ds0 s _
              (session_inv_initial timeout lenv penv ds0)) as [Hmain _ _].
  fold c in Hmain.
  destruct Hmain as [(k & Hk & Hat & Hs & Ho & Hsend & Hjoin & _) | (Hr & Hbad & _)].
  - left. unfold main_at in Hat. rewrite Hat in Hfin.
    destruct k as [|[|[|[|[|[|[|[|k]]]]]]]]; try lia; try discriminate.
    repeat split; try done.
    + rewrite Hs, Ho by lia. done.
    + apply Hsend. lia.
    + apply Hjoin. lia.
  - right. done.
Qed.

(** Once the listener has ended, the list is the one
    [listen_for_responses] leaves, whatever the schedule was. *)
Lemma listener_end s ds0 l :
  let c := run timeout lenv s (initial penv ds0) in
  listener c = Some l → finished l = true →
  discovered_devices c = devices_after (listen_for_responses timeout lenv ds0)
  ∧ match l with
    | Running _ => result (listen_for_responses timeout lenv ds0) = Ok tt
    | Raised e => result (listen_for_responses timeout lenv ds0) = Raise e
    end.
Proof.
  intros c Hl Hfin.
  destruct (session_inv_run timeout lenv penv ds0 s _
              (session_inv_initial timeout lenv penv ds0)) as [_ _ Hlis].
  fold c in Hlis. destruct (Hlis l Hl) as [Hr Hd].
  destruct l as [[|x rest]|e]; try discriminate; simpl in *; done.
Qed.

End SessionEnd.

(** Each thread runs its statements in the order of its program, under
    every schedule; and what follows from it for the [sendto]. *)
Section SessionOrder.
Context `{Codec}.
Variable timeout : Z.
Variable lenv : listener_env.
Variable penv : prober_env.
Variable ds0 : list json.

Lemma run_snoc s t c :
  run timeout lenv (s ++ [t]) c = step timeout lenv t (run timeout lenv s c).
Proof. by rewrite run_app. Qed.

(** What holds at the start and is kept by every step, where the
    invariant of the session holds, holds after every schedule. *)
Lemma after_every_schedule (P : config → Prop) :
  P (initial penv ds0) →
  (∀ t c, session_inv timeout lenv penv ds0 c → P c → P (step timeout lenv t c)) →
  ∀ s, P (run timeout lenv s (initial penv ds0)).
Proof.
  intros Hinit Hstep s. induction s as [|t s IH] using rev_ind; [done|].
  rewrite run_snoc. apply Hstep; [|done].
  apply session_inv_run, session_inv_initial.
Qed.

Lemma listener_labels start turns :
  Forall (λ x, of_main x.1 = false)
         (loop_steps start timeout turns ++ [(ListenClose, ret tt)]).
Proof.
  induction turns as [|it rest IH]; simpl; [by repeat constructor|].
  destruct (clock it - start <? timeout); [by constructor|by repeat constructor].
Qed.

Lemma listener_steps_labels :
  Forall (λ x, of_main x.1 = false) (listener_steps timeout lenv).
Proof.
  unfold listener_steps. simpl. repeat (constructor; [done|]).
  apply listener_labels.
Qed.

Lemma drop_cons_inv {A} (l : list A) j x rest :
  drop j l = x :: rest → l !! j = Some x ∧ rest = drop (S j) l.
Proof.
  revert l. induction j as [|j IH]; intros [|y l]; simpl; try done.
  - intros [= -> ->]. by rewrite drop_0.
  - apply IH.
Qed.

Lemma filter_snoc (f : label → bool) h l :
  List.filter f (h ++ [l]) = List.filter f h ++ (if f l then [l] else []).
Proof. rewrite List.filter_app. reflexivity. Qed.

Lemma main_position c k :
  session_inv timeout lenv penv ds0 c →
  main c = Running (drop k (main_steps penv)) → (k ≤ 7)%nat →
  (k = 0%nat ↔ listener c = None)
  ∧ ((6 ≤ k)%nat → ∃ l, listener c = Some l ∧ finished l = true).
Proof.
  intros [[(k' & Hk' & Hat & _ & _ & _ & Hjoin & Hzero) | (Hr & _)] _ _] Hm Hk;
    [|congruence].
  unfold main_at in Hat. rewrite Hm in Hat. injection Hat as Hat.
  apply (f_equal List.length) in Hat. rewrite !length_drop in Hat.
  simpl in Hat. assert (k = k') as -> by lia. done.
Qed.

(** The main thread has run one more statement; the listener's part of
    the history is as it was. *)
Ltac main_ran k j Hhm Hl :=
  split; simpl; rewrite filter_snoc; simpl;
  [ exists k; rewrite Hhm; split; [reflexivity | simpl; try lia; reflexivity]
  | exists j; by rewrite app_nil_r ].

Lemma program_order_step t c :
  session_inv timeout lenv penv ds0 c →
  program_order timeout lenv penv c →
  program_order timeout lenv penv (step timeout lenv t c).
Proof.
  intros Hinv [(k & Hhm & Hm) (j & Hhl & Hl)].
  destruct t; unfold step.
  - (* a step of the main thread *)
    destruct (main c) as [rest|e] eqn:Em;
      [|split; [exists k|exists j]; simpl; by rewrite ?Em].
    subst rest.
    assert (Hk7 : (7 < k)%nat ∨ (k ≤ 7)%nat) by lia.
    destruct Hk7 as [Hbig | Hk7].
    { rewrite drop_ge by (simpl; lia). split; [exists k|exists j]; by rewrite ?Em. }
    destruct (main_position c k Hinv Em Hk7) as [Hzero Hjoin].
    destruct k as [|[|[|[|[|[|[|[|k]]]]]]]]; try lia; simpl.
    + (* start() *)
      destruct Hzero as [Hz _]. rewrite (Hz eq_refl) in Hl. subst j.
      split; simpl; rewrite filter_snoc; simpl.
      * exists 1%nat. by rewrite Hhm.
      * exists 0%nat. by rewrite app_nil_r.
    + (* socket.socket() *)
      unfold_M. destruct (p_socket_ok penv); main_ran 2%nat j Hhm Hl.
    + (* sock.setsockopt() *)
      unfold_M. destruct (p_setsockopt_ok penv); main_ran 3%nat j Hhm Hl.
    + (* sock.sendto(), guarded *)
      unfold guarded_send. unfold_M.
      destruct (p_sendto_ok penv); main_ran 4%nat j Hhm Hl.
    + (* sock.close() *)
      unfold_M. main_ran 5%nat j Hhm Hl.
    + (* listener_thread.join() *)
      destruct (listener c) as [l|] eqn:El;
        [|split; [exists 5%nat|exists j]; simpl; by rewrite ?Em, ?El].
      destruct (finished l);
        [|split; [exists 5%nat|exists j]; simpl; by rewrite ?Em, ?El].
      main_ran 6%nat j Hhm Hl.
    + (* the summary *)
      unfold summary. unfold_M.
      destruct (discovered_devices c); main_ran 7%nat j Hhm Hl.
    + (* returned *)
      split; [exists 7%nat|exists j]; simpl; by rewrite ?Em.
  - (* a step of the listener *)
    destruct (listener c) as [[[|[lab stmt] rest]|e]|] eqn:El;
      try (split; [exists k|exists j]; simpl; by rewrite ?El).
    symmetry in Hl. apply drop_cons_inv in Hl as [Hlook ->].
    assert (of_main lab = false) as Hlab.
    { pose proof listener_steps_labels as Hall. rewrite Forall_forall in Hall.
      apply (Hall (lab, stmt)). by eapply list_elem_of_lookup_2. }
    destruct (stmt (discovered_devices c)) as [[r ds] out].
    split; simpl; rewrite filter_snoc, Hlab; simpl.
    + exists k. by rewrite app_nil_r.
    + exists (S j). rewrite Hhl. split; [|by destruct r].
      rewrite (take_S_r _ _ _ Hlook), fmap_app. reflexivity.
Qed.

Lemma program_order_holds s :
  program_order timeout lenv penv (run timeout lenv s (initial penv ds0)).
Proof.
  apply after_every_schedule; [|apply program_order_step].
  split; exists 0%nat; simpl; by rewrite ?drop_0.
Qed.

(** Once the guarded [sendto] has run, its line is on standard output
    and stays there. *)
Lemma send_line_printed s rest :
  main (run timeout lenv s (initial penv ds0)) = Running rest →
  (List.length rest ≤ 3)%nat →
  send_line penv ∈ stdout (run timeout lenv s (initial penv ds0)).
Proof.
  revert rest.
  apply (after_every_schedule
           (λ c, ∀ rest, main c = Running rest → (List.length rest ≤ 3)%nat →
                         send_line penv ∈ stdout c)).
  { intros rest [= <-]. simpl. lia. }
  clear s. intros t c Hinv IH rest Hm Hlen. destruct t.
  - (* a step of the main thread *)
    destruct Hinv as [[(k & Hk & Hat & _) | (Hr & _)] _ _].
    2:{ unfold step in Hm. rewrite Hr in Hm. simpl in Hm. congruence. }
    unfold main_at in Hat. unfold step in Hm |- *. rewrite Hat in Hm |- *.
    destruct k as [|[|[|[|[|[|[|[|k]]]]]]]]; try lia; simpl in Hat, Hm |- *.
    + injection Hm as <-. simpl in Hlen. lia.
    + unfold_M. destruct (p_socket_ok penv); simpl in *; [|discriminate].
      injection Hm as <-. simpl in Hlen. lia.
    + unfold_M. destruct (p_setsockopt_ok penv); simpl in *; [|discriminate].
      injection Hm as <-. simpl in Hlen. lia.
    + unfold guarded_send, send_line. unfold_M.
      destruct (p_sendto_ok penv); simpl; apply elem_of_app; right; by left.
    + unfold_M. simpl. apply elem_of_app. left. apply (IH _ Hat). simpl. lia.
    + destruct (listener c) as [l|]; [destruct (finished l)|]; simpl;
        apply (IH _ Hat); simpl; lia.
    + unfold summary. unfold_M.
      destruct (discovered_devices c); simpl; apply elem_of_app; left;
        apply (IH _ Hat); simpl; lia.
    + apply (IH _ Hat). simpl. lia.
  - (* a step of the listener *)
    unfold step in Hm |- *.
    destruct (listener c) as [[[|[lab stmt] rest']|e]|]; try (by apply (IH rest)).
    destruct (stmt (discovered_devices c)) as [[r ds] out]. simpl in *.
    apply elem_of_app. left. by apply (IH rest).
Qed.

(** When [discover_devices] has returned, every statement of the main
    thread has run, the [sendto] among them. *)
Lemma returned_after_sendto s :
  main (run timeout lenv s (initial penv ds0)) = Running [] →
  ProbeSendto ∈ history (run timeout lenv s (initial penv ds0)).
Proof.
  intros Hret. destruct (program_order_holds s) as [(k & Hhm & Hm) _].
  rewrite Hret in Hm.
  assert (ProbeSendto ∈ List.filter of_main
            (history (run timeout lenv s (initial penv ds0)))) as Hin.
  { rewrite Hhm.
    destruct k as [|[|[|[|[|[|[|[|k]]]]]]]]; simpl in Hm; try discriminate;
      simpl; do 3 right; by left. }
  apply list_elem_of_In, List.filter_In in Hin as [Hin _].
  by apply list_elem_of_In.
Qed.

End SessionOrder.

(** ** The session: order, failures, and what outlives it *)

Section SessionClaims.
Context `{Codec}.

(** C4 (amended): in every session the listener thread is started
    before the probe is sent, whatever the schedule; that is all the
    script orders between the two.  The send does not wait for the
    listener's [bind], which may come before or after it. *)
Theorem listener_is_started_before_probe timeout lenv penv ds0 s before after :
  history (run timeout lenv s (initial penv ds0)) = before ++ ProbeSendto :: after →
  ThreadStart ∈ before.
Proof.
  intros Hh.
  destruct (session_inv_run timeout lenv penv ds0 s _
              (session_inv_initial timeout lenv penv ds0)) as [_ Hhist _].
  destruct (listener (run timeout lenv s (initial penv ds0))).
  - destruct Hhist as [h Hstart]. rewrite Hstart in Hh.
    destruct before as [|x before]; simplify_eq/=. by left.
  - destruct Hhist as [Hnil _]. rewrite Hnil in Hh.
    by destruct before.
Qed.

(** C6 (amended): the session ends, and how it ends depends on the
    thread the failure is in.  A socket of the prober that cannot be
    created or broadcast-enabled is fatal: [discover_devices] ends on the
    error.  A listener socket that cannot be created, set up or bound
    ends the listener thread and nothing else: the main thread still
    calls [sendto], whose line is printed (the broadcast sent, or the
    error of the call), and [discover_devices] returns normally with the
    list as it was when the session started. *)
Theorem setup_failure_by_thread timeout lenv penv ds0 :
  finished (main (discover_devices timeout lenv penv ds0)) = true
  ∧ ∀ s, let c := run timeout lenv s (initial penv ds0) in
      finished (main c) = true →
      (p_socket_ok penv && p_setsockopt_ok penv = false → main c = Raised OSError)
      ∧ (p_socket_ok penv && p_setsockopt_ok penv = true →
         setup_ok timeout lenv = false →
         main c = Running []
         ∧ discovered_devices c = ds0
         ∧ (∃ e, listener c = Some (Raised e))
         ∧ ProbeSendto ∈ history c
         ∧ send_line penv ∈ stdout c).
Proof.
  split; [apply discover_devices_ends|].
  intros s c Hfin. subst c.
  destruct (session_end timeout lenv penv s ds0 Hfin)
    as [(Hret & Hok & _ & l & Hl & Hlfin) | (Hr & Hbad)].
  - split; [intros Hbad; congruence|]. intros _ Hsetup.
    destruct (listen_for_responses_no_setup timeout lenv ds0 Hsetup) as [e He].
    destruct (listener_end timeout lenv penv s ds0 l Hl Hlfin) as [Hd Hres].
    rewrite He in Hd, Hres. simpl in Hd, Hres.
    split; [done|]. split; [done|]. split; [|split].
    + destruct l as [rest|e']; [done|]. injection Hres as ->. eauto.
    + by apply returned_after_sendto.
    + apply (send_line_printed timeout lenv penv ds0 s [] Hret). simpl. lia.
  - split; [done|]. intros Hok. congruence.
Qed.

(** C8: when the two socket calls of the prober succeed and [sendto]
    fails, the session still ends, and it ends normally under every
    schedule: the failure is printed, the main thread has waited for the
    listener, and the list is the one the listener makes of its whole
    window, the same list as a session in which [sendto] succeeds ends
    with.  In particular the responses received are in it: when they are
    objects of which none gives as [ip] the address of a later one or is a
    duplicate of a record the list held, the list returned is the one the
    session started with followed by the document of every response
    received, in the order of arrival. *)
Theorem send_failure_is_not_fatal timeout lenv penv ds0 :
  p_socket_ok penv = true → p_setsockopt_ok penv = true →
  p_sendto_ok penv = false →
  finished (main (discover_devices timeout lenv penv ds0)) = true
  ∧ ∀ s, let c := run timeout lenv s (initial penv ds0) in
      finished (main c) = true →
      main c = Running []
      ∧ ErrorSending OSError ∈ stdout c
      ∧ (∃ l, listener c = Some l ∧ finished l = true)
      ∧ discovered_devices c
        = devices_after (listen_for_responses timeout lenv ds0)
      ∧ (let heard := received (l_start_time lenv) timeout (l_turns lenv) in
         setup_ok timeout lenv = true →
         Forall object_response heard →
         Forall (λ d, is_dict d = true) ds0 →
         Forall (λ dg, existsb (same_ip (sender dg)) ds0 = false) heard →
         ForallOrdPairs (λ dg dg', same_ip (sender dg') (document dg) = false) heard →
         discovered_devices c = ds0 ++ map document heard)
      ∧ (∀ s', let c' := run timeout lenv s' (initial (mkProberEnv true true true) ds0) in
           main c' = Running [] → discovered_devices c' = discovered_devices c).
Proof.
  intros Hs Ho Hsend. split; [apply discover_devices_ends|].
  intros s c Hfin. subst c.
  destruct (session_end timeout lenv penv s ds0 Hfin)
    as [(Hret & _ & Hprinted & l & Hl & Hlfin) | (_ & Hbad)].
  - destruct (listener_end timeout lenv penv s ds0 l Hl Hlfin) as [Hd _].
    split; [done|]. split; [by apply Hprinted|]. split; [eauto|]. split; [done|]. split.
    + intros heard Hsetup Hobj Hds Hfresh Hpairs.
      rewrite Hd, listen_for_responses_devices, Hsetup.
      by apply fold_store_unclaimed.
    + intros s' c' Hret'. subst c'.
      assert (finished (main (run timeout lenv s'
                (initial (mkProberEnv true true true) ds0))) = true) as Hfin'
        by (by rewrite Hret').
      destruct (session_end timeout lenv _ s' ds0 Hfin')
        as [(_ & _ & _ & l' & Hl' & Hlfin') | (Hr' & _)]; [|congruence].
      destruct (listener_end timeout lenv _ s' ds0 l' Hl' Hlfin') as [Hd' _].
      congruence.
  - rewrite Hs, Ho in Hbad. done.
Qed.

(** C9 (amended): the list is a global of the module and outlives the
    session.  When two sessions run one after the other in a process,
    the second starts from the list the first left and ends with that
    list followed by what it stores itself. *)
Theorem list_outlives_the_session
    timeout1 lenv1 penv1 s1 timeout2 lenv2 penv2 s2 ds0 :
  let c1 := run timeout1 lenv1 s1 (initial penv1 ds0) in
  let c2 := run timeout2 lenv2 s2 (initial penv2 (discovered_devices c1)) in
  main c1 = Running [] → main c2 = Running [] →
  discovered_devices c1 = devices_after (listen_for_responses timeout1 lenv1 ds0)
  ∧ discovered_devices c2
    = devices_after (listen_for_responses timeout2 lenv2 (discovered_devices c1))
  ∧ ∃ new, discovered_devices c2 = discovered_devices c1 ++ new.
Proof.
  intros c1 c2 H1 H2. subst c2 c1.
  assert (finished (main (run timeout1 lenv1 s1 (initial penv1 ds0))) = true)
    as Hf1 by (by rewrite H1).
  assert (finished (main (run timeout2 lenv2 s2
            (initial penv2 (discovered_devices
               (run timeout1 lenv1 s1 (initial penv1 ds0)))))) = true) as Hf2
    by (by rewrite H2).
  destruct (session_end timeout1 lenv1 penv1 s1 ds0 Hf1)
    as [(_ & _ & _ & l1 & Hl1 & Hlf1) | (Hr & _)]; [|congruence].
  destruct (session_end timeout2 lenv2 penv2 s2 _ Hf2)
    as [(_ & _ & _ & l2 & Hl2 & Hlf2) | (Hr & _)]; [|congruence].
  destruct (listener_end timeout1 lenv1 penv1 s1 ds0 l1 Hl1 Hlf1) as [Hd1 _].
  destruct (listener_end timeout2 lenv2 penv2 s2 _ l2 Hl2 Hlf2) as [Hd2 _].
  repeat split; try done.
  rewrite Hd2, listen_for_responses_devices.
  destruct (setup_ok timeout2 lenv2).
  - apply fold_store_appends.
  - exists []. by rewrite app_nil_r.
Qed.

End SessionClaims.

(** ** From the bytes of a payload to the record

    What the reader of the examples makes of an object of strings, and
    with it what the listener stores for such a payload. *)

Section PayloadToRecord.
Import Fragment.
#[local] Existing Instance Fragment.codec.

Lemma plain_char_inv c :
  plain_char c = true →
  Ascii.eqb c quote = false ∧ Ascii.eqb c "\" = false
  ∧ (N_of_ascii c <? 32)%N = false.
Proof.
  destruct c as [[] [] [] [] [] [] [] []]; vm_compute; intros; try discriminate;
    repeat split; reflexivity.
Qed.

Lemma plain_inv s :
  plain s = true →
  forallb plain_char (list_ascii_of_string s) = true
  ∧ utf8_wf (List.map byte_of_ascii (list_ascii_of_string s)) = true.
Proof. intros [Hs Hwf]%andb_prop. done. Qed.

(** Well-formed UTF-8 followed by more bytes is well formed when these
    are. *)
Lemma utf8_wf_app a b : utf8_wf a = true → utf8_wf (a ++ b) = utf8_wf b.
Proof.
  remember (List.length a) as n eqn:En. revert a En.
  induction n as [n IH] using lt_wf_ind. intros a -> Ha.
  destruct a as [|b0 r0]; [reflexivity|].
  cbn [app utf8_wf] in Ha |- *.
  destruct (between 0 127 b0).
  { apply (IH (List.length r0)); [simpl; lia | reflexivity | exact Ha]. }
  destruct r0 as [|b1 r1]; [discriminate|]. cbn [app].
  destruct (between 194 223 b0).
  { apply andb_prop in Ha as [-> Ha]. cbn [andb].
    apply (IH (List.length r1)); [simpl; lia | reflexivity | exact Ha]. }
  destruct r1 as [|b2 r2]; [discriminate|]. cbn [app].
  destruct (between 224 224 b0).
  { apply andb_prop in Ha as [Hb Ha]. rewrite Hb. cbn [andb].
    apply (IH (List.length r2)); [simpl; lia | reflexivity | exact Ha]. }
  destruct (between 237 237 b0).
  { apply andb_prop in Ha as [Hb Ha]. rewrite Hb. cbn [andb].
    apply (IH (List.length r2)); [simpl; lia | reflexivity | exact Ha]. }
  destruct (between 225 239 b0).
  { apply andb_prop in Ha as [Hb Ha]. rewrite Hb. cbn [andb].
    apply (IH (List.length r2)); [simpl; lia | reflexivity | exact Ha]. }
  destruct r2 as [|b3 r3]; [discriminate|]. cbn [app].
  assert (∀ c, c && (between 128 191 b2 && between 128 191 b3 && utf8_wf r3) = true →
            c && (between 128 191 b2 && between 128 191 b3 && utf8_wf (r3 ++ b))
            = utf8_wf b) as Htail.
  { intros c [-> [[-> ->]%andb_prop Hr]%andb_prop]%andb_prop. cbn [andb].
    apply (IH (List.length r3)); [simpl; lia | reflexivity | exact Hr]. }
  destruct (between 240 240 b0); [by apply Htail|].
  destruct (between 241 243 b0); [by apply Htail|].
  destruct (between 244 244 b0); [by apply Htail|].
  discriminate.
Qed.

Lemma wf_prefix_nil : wf_prefix [].
Proof. intros rest. reflexivity. Qed.

Lemma wf_prefix_app a b : wf_prefix a → wf_prefix b → wf_prefix (a ++ b).
Proof.
  intros Ha Hb rest. rewrite List.map_app, <- app_assoc, Ha. apply Hb.
Qed.

Lemma wf_prefix_ascii c cs :
  (N_of_ascii c <? 128)%N = true → wf_prefix cs → wf_prefix (c :: cs).
Proof.
  intros Hc Hcs rest. cbn [List.map app utf8_wf].
  assert (between 0 127 (byte_of_ascii c) = true) as ->; [|apply Hcs].
  revert Hc. destruct c as [[] [] [] [] [] [] [] []]; vm_compute; congruence.
Qed.

Lemma wf_prefix_plain s : plain s = true → wf_prefix (list_ascii_of_string s).
Proof. intros [_ Hwf]%plain_inv rest. by apply utf8_wf_app. Qed.

Lemma wf_prefix_blanks gap : blanks gap = true → wf_prefix gap.
Proof.
  unfold blanks. induction gap as [|c gap IH]; [intros _; apply wf_prefix_nil|].
  cbn [forallb]. intros [Hc Hgap]%andb_prop.
  apply wf_prefix_ascii; [|by apply IH].
  unfold is_ws in Hc.
  repeat (apply orb_prop in Hc as [Hc|Hc]); apply Ascii.eqb_eq in Hc; by subst.
Qed.

Lemma wf_prefix_quoted s : plain s = true → wf_prefix (quoted s).
Proof.
  intros Hs. unfold quoted. apply wf_prefix_ascii; [reflexivity|].
  apply wf_prefix_app; [by apply wf_prefix_plain|].
  apply wf_prefix_ascii; [reflexivity | apply wf_prefix_nil].
Qed.

Lemma wf_prefix_uint d : wf_prefix (uint_text d).
Proof.
  induction d; cbn [uint_text];
    try (apply wf_prefix_ascii; [reflexivity | assumption]).
  apply wf_prefix_nil.
Qed.

Lemma wf_prefix_atom a : atom_ok a = true → wf_prefix (atom_text a).
Proof.
  intros Ha. destruct a as [s|[|p|p]|[]|]; cbn [atom_text int_text atom_ok] in *.
  - by apply wf_prefix_quoted.
  - apply wf_prefix_ascii; [reflexivity | apply wf_prefix_nil].
  - apply wf_prefix_uint.
  - apply wf_prefix_ascii; [reflexivity | apply wf_prefix_uint].
  - repeat (apply wf_prefix_ascii; [reflexivity|]). apply wf_prefix_nil.
  - repeat (apply wf_prefix_ascii; [reflexivity|]). apply wf_prefix_nil.
  - repeat (apply wf_prefix_ascii; [reflexivity|]). apply wf_prefix_nil.
Qed.

Lemma wf_prefix_member gap kv :
  blanks gap = true → plain kv.1 = true → atom_ok kv.2 = true →
  wf_prefix (member_text gap kv).
Proof.
  intros Hgap Hk Hv. unfold member_text.
  apply wf_prefix_app; [by apply wf_prefix_quoted|].
  apply wf_prefix_ascii; [reflexivity|].
  apply wf_prefix_app; [by apply wf_prefix_blanks | by apply wf_prefix_atom].
Qed.

Lemma wf_prefix_members gap kvs :
  blanks gap = true → plain_pairs kvs → wf_prefix (members_text gap kvs).
Proof.
  intros Hgap Hkvs.
  induction Hkvs as [|kv kvs [Hk Hv] Hkvs IH]; [apply wf_prefix_nil|].
  destruct kvs as [|kv' kvs].
  - by apply wf_prefix_member.
  - change (members_text gap (kv :: kv' :: kvs))
      with (member_text gap kv ++ ","%char :: gap ++ members_text gap (kv' :: kvs)).
    apply wf_prefix_app; [by apply wf_prefix_member|].
    apply wf_prefix_ascii; [reflexivity|].
    apply wf_prefix_app; [by apply wf_prefix_blanks | exact IH].
Qed.

(** [data.decode('utf-8')] on the bytes of the text of an object. *)
Lemma decode_object_text gap kvs :
  blanks gap = true → plain_pairs kvs →
  decode (object_payload gap kvs) = Ok (string_of_list_ascii (object_text gap kvs)).
Proof.
  intros Hgap Hkvs. unfold decode, object_payload.
  assert (wf_prefix (object_text gap kvs)) as Hwf.
  { unfold object_text. apply wf_prefix_ascii; [reflexivity|].
    apply wf_prefix_app; [by apply wf_prefix_members|].
    apply wf_prefix_ascii; [reflexivity | apply wf_prefix_nil]. }
  specialize (Hwf []). rewrite app_nil_r in Hwf. rewrite Hwf. cbn [utf8_wf].
  f_equal. unfold string_of_list_byte. rewrite List.map_map.
  f_equal. rewrite <- (List.map_id (object_text gap kvs)) at 2. apply List.map_ext.
  intros c. apply ascii_of_byte_of_ascii.
Qed.

Lemma skip_ws_gap gap c r :
  blanks gap = true → is_ws c = false → skip_ws (gap ++ c :: r) = c :: r.
Proof.
  intros Hgap Hc. induction gap as [|w gap IH]; simpl.
  - by rewrite Hc.
  - simpl in Hgap. apply andb_prop in Hgap as [-> Hgap]. by apply IH.
Qed.

Lemma scanstring_plain s rest :
  plain s = true →
  scanstring (list_ascii_of_string s ++ quote :: rest) = Some (s, rest).
Proof.
  intros [Hs _]%plain_inv. induction s as [|c s IH].
  - reflexivity.
  - cbn [list_ascii_of_string forallb] in Hs. apply andb_prop in Hs as [Hc Hs].
    destruct (plain_char_inv c Hc) as (Hq & Hb & Hctl).
    cbn [list_ascii_of_string app scanstring].
    rewrite Hq, Hb, Hctl, (IH Hs). reflexivity.
Qed.

Lemma value_string fuel s rest :
  plain s = true →
  value (S fuel) (quote :: list_ascii_of_string s ++ quote :: rest) = Some (JStr s, rest).
Proof.
  intros Hs. cbn [value].
  change (Ascii.eqb quote quote) with true. cbn iota.
  rewrite (scanstring_plain s rest Hs). reflexivity.
Qed.

(** The digits of a number, as the reader takes them. *)
Lemma digits_uint l : ∀ acc tail,
  closes tail →
  digits (Zpos acc) (uint_text l ++ tail) = (Zpos (Pos.of_uint_acc l acc), tail).
Proof.
  induction l as [|l IH|l IH|l IH|l IH|l IH|l IH|l IH|l IH|l IH|l IH];
    intros acc tail Hc;
    try (cbn [uint_text app digits Pos.of_uint_acc];
         change (digit _) with (Some 0) || change (digit _) with (Some 1)
         || change (digit _) with (Some 2) || change (digit _) with (Some 3)
         || change (digit _) with (Some 4) || change (digit _) with (Some 5)
         || change (digit _) with (Some 6) || change (digit _) with (Some 7)
         || change (digit _) with (Some 8) || change (digit _) with (Some 9);
         cbn iota; rewrite <- (IH _ tail Hc); f_equal; lia).
  destruct Hc as [r [-> | ->]]; reflexivity.
Qed.

Lemma to_uint_head p :
  ∃ c l v, uint_text (Pos.to_uint p) = c :: uint_text l
           ∧ digit c = Some (Zpos v)
           ∧ Pos.of_uint_acc l v = p.
Proof.
  pose proof (DecimalPos.Unsigned.of_to p) as Hof.
  pose proof (DecimalPos.Unsigned.to_of (Pos.to_uint p)) as Hto. rewrite Hof in Hto.
  change (N.to_uint (Npos p)) with (Pos.to_uint p) in Hto.
  destruct (Pos.to_uint p) as [|l|l|l|l|l|l|l|l|l|l] eqn:Ed;
    try (cbn in Hof; injection Hof as Hof; do 3 eexists;
         split; [reflexivity | split; [reflexivity | exact Hof]]).
  - by destruct (DecimalPos.Unsigned.to_uint_nonnil p).
  - exfalso. rewrite DecimalFacts.unorm_D0 in Hto. unfold Decimal.unorm in Hto.
    destruct (Decimal.nzhead l) eqn:En; try discriminate.
    + injection Hto as Hl. subst l. by destruct (DecimalPos.Unsigned.to_uint_nonzero p).
    + rewrite <- En in Hto. by destruct (DecimalFacts.nzhead_nonzero l l).
Qed.

Lemma natural_text p tail :
  closes tail →
  natural (uint_text (Pos.to_uint p) ++ tail) = Some (Zpos p, tail).
Proof.
  intros Hc. destruct (to_uint_head p) as (c & l & v & -> & Hd & <-).
  cbn [app natural]. rewrite Hd. cbn [Z.eqb].
  rewrite (digits_uint l v tail Hc).
  destruct Hc as [r [-> | ->]]; reflexivity.
Qed.

Lemma digit_head c v r :
  digit c = Some v →
  Ascii.eqb c quote = false ∧ Ascii.eqb c "{" = false ∧ Ascii.eqb c "[" = false
  ∧ literal (c :: r) = option_map (λ '(n, rest), (JInt n, rest)) (natural (c :: r))
  ∧ literal ("-"%char :: c :: r)
    = option_map (λ '(n, rest), (JInt (- n), rest)) (natural (c :: r)).
Proof.
  intros Hd.
  destruct c as [[] [] [] [] [] [] [] []];
    try (vm_compute in Hd; discriminate Hd); repeat split; reflexivity.
Qed.

Lemma literal_int z tail :
  closes tail → literal (int_text z ++ tail) = Some (JInt z, tail).
Proof.
  intros Hc. destruct z as [|p|p]; cbn [int_text app].
  - destruct Hc as [r [-> | ->]]; reflexivity.
  - pose proof (natural_text p tail Hc) as Hn.
    destruct (to_uint_head p) as (c & l & v & E & Hd & _). rewrite E in Hn |- *.
    cbn [app] in Hn |- *.
    destruct (digit_head c _ (uint_text l ++ tail) Hd) as (_ & _ & _ & -> & _).
    rewrite Hn. reflexivity.
  - pose proof (natural_text p tail Hc) as Hn.
    destruct (to_uint_head p) as (c & l & v & E & Hd & _). rewrite E in Hn |- *.
    cbn [app] in Hn |- *.
    destruct (digit_head c _ (uint_text l ++ tail) Hd) as (_ & _ & _ & _ & ->).
    rewrite Hn. reflexivity.
Qed.

(** The reader on the text of a value, followed by what may follow it. *)
Lemma value_atom fuel a tail :
  atom_ok a = true → closes tail →
  value (S fuel) (atom_text a ++ tail) = Some (atom_value a, tail).
Proof.
  intros Ha Hc. destruct a as [s|z|[]|]; cbn [atom_text atom_value atom_ok] in *.
  - unfold quoted. cbn [app]. rewrite <- app_assoc. cbn [app].
    by apply value_string.
  - rewrite <- (literal_int z tail Hc).
    destruct z as [|p|p]; cbn [int_text app].
    + reflexivity.
    + destruct (to_uint_head p) as (c & l & v & -> & Hd & _). cbn [app value].
      destruct (digit_head c _ (uint_text l ++ tail) Hd) as (-> & -> & -> & _).
      reflexivity.
    + reflexivity.
  - reflexivity.
  - reflexivity.
  - reflexivity.
Qed.

Lemma members_member gap fuel k a tail acc :
  blanks gap = true → plain k = true → atom_ok a = true → closes tail →
  members (S (S fuel)) (member_text gap (k, a) ++ tail) acc
  = match tail with
    | "}"%char :: rest => Some (JDict (insert_pair acc (k, a)), rest)
    | ","%char :: r4 => members (S fuel) (skip_ws r4) (insert_pair acc (k, a))
    | _ => None
    end.
Proof.
  intros Hgap Hk Ha Hc.
  assert (member_text gap (k, a) ++ tail
          = quote :: list_ascii_of_string k
            ++ quote :: ":"%char :: gap ++ atom_text a ++ tail) as ->.
  { unfold member_text, quoted. cbn [fst snd app].
    repeat (rewrite <- app_assoc; cbn [app]). reflexivity. }
  remember (S fuel) as fuel' eqn:Ef. cbn [members].
  change (Ascii.eqb quote quote) with true. cbn iota.
  rewrite (scanstring_plain k _ Hk).
  change (skip_ws (":"%char :: ?r)) with (":"%char :: r). cbn iota.
  assert (∃ c r, atom_text a ++ tail = c :: r ∧ is_ws c = false) as (c & r & E & Hws).
  { destruct a as [s|[|p|p]|[]|]; cbn [atom_text int_text quoted app];
      try (do 2 eexists; split; [reflexivity | reflexivity]).
    destruct (to_uint_head p) as (c & l & v & -> & Hd & _). cbn [app].
    do 2 eexists. split; [reflexivity|].
    revert Hd. destruct c as [[] [] [] [] [] [] [] []]; vm_compute; congruence. }
  rewrite E, (skip_ws_gap gap c r Hgap Hws), <- E.
  subst fuel'. rewrite (value_atom fuel a tail Ha Hc).
  destruct Hc as [r' [-> | ->]]; reflexivity.
Qed.

Lemma members_text_head gap kv kvs :
  ∃ r, members_text gap (kv :: kvs) = quote :: r.
Proof. destruct kv as [k v]. destruct kvs; cbn; eauto. Qed.

Lemma members_of_text gap kvs : ∀ fuel rest acc,
  blanks gap = true → plain_pairs kvs → kvs ≠ [] →
  (List.length kvs < fuel)%nat →
  members fuel (members_text gap kvs ++ "}"%char :: rest) acc
  = Some (JDict (fold_left insert_pair kvs acc), rest).
Proof.
  induction kvs as [|[k v] kvs IH]; intros fuel rest acc Hgap Hkvs Hne Hfuel; [done|].
  apply Forall_cons in Hkvs as [[Hk Hv] Hkvs]. simpl in Hk, Hv.
  destruct fuel as [|fuel]; [simpl in Hfuel; lia|].
  destruct fuel as [|fuel]; [simpl in Hfuel; lia|].
  destruct kvs as [|kv' kvs].
  - cbn [members_text]. rewrite (members_member gap fuel k v _ acc Hgap Hk Hv).
    + reflexivity.
    + eexists. right. reflexivity.
  - change (members_text gap ((k, v) :: kv' :: kvs))
      with (member_text gap (k, v) ++ ","%char :: gap ++ members_text gap (kv' :: kvs)).
    rewrite <- app_assoc. rewrite (members_member gap fuel k v _ acc Hgap Hk Hv).
    2:{ eexists. left. reflexivity. }
    cbn [app]. rewrite <- app_assoc.
    destruct (members_text_head gap kv' kvs) as [r Hr].
    rewrite Hr. cbn [app]. rewrite (skip_ws_gap gap quote _ Hgap eq_refl).
    change (quote :: r ++ "}"%char :: rest) with ((quote :: r) ++ "}"%char :: rest).
    rewrite <- Hr.
    rewrite IH; [reflexivity|done|done|done|]. simpl in *. lia.
Qed.

Lemma members_text_length gap kvs :
  (List.length kvs ≤ List.length (members_text gap kvs))%nat.
Proof.
  induction kvs as [|[k v] kvs IH]; [done|].
  destruct kvs as [|kv' kvs].
  - cbn. lia.
  - change (members_text gap ((k, v) :: kv' :: kvs))
      with (member_text gap (k, v) ++ ","%char :: gap ++ members_text gap (kv' :: kvs)).
    rewrite length_app. cbn [List.length]. rewrite length_app.
    cbn [List.length] in IH |- *. lia.
Qed.

(** The reader on the text of an object. *)
Lemma loads_object_text gap kvs :
  blanks gap = true → plain_pairs kvs →
  loads (string_of_list_ascii (object_text gap kvs))
  = Ok (JDict (fold_left insert_pair kvs ∅)).
Proof.
  intros Hgap Hkvs. unfold loads.
  rewrite list_ascii_of_string_of_list_ascii. unfold object_text.
  change (skip_ws ("{"%char :: ?r)) with ("{"%char :: r).
  remember (List.length _) as n eqn:En. cbn [value].
  change (Ascii.eqb "{" quote) with false.
  change (Ascii.eqb "{" "{") with true. cbn iota.
  destruct kvs as [|kv kvs].
  - reflexivity.
  - destruct (members_text_head gap kv kvs) as [r Hr].
    rewrite Hr. cbn [app].
    change (skip_ws (quote :: ?r)) with (quote :: r).
    unfold quote at 1. cbn iota. fold quote.
    change (quote :: r ++ ["}"%char]) with ((quote :: r) ++ ["}"%char]).
    rewrite <- Hr.
    rewrite members_of_text; [reflexivity|done|done|done|].
    subst n. pose proof (members_text_length gap (kv :: kvs)).
    cbn [List.length]. rewrite length_app. cbn [List.length] in *. lia.
Qed.

Lemma fold_insert_pair_lookup kvs : ∀ acc key,
  fold_left insert_pair kvs acc !! key
  = match last_value key kvs with
    | Some a => Some (atom_value a)
    | None => acc !! key
    end.
Proof.
  induction kvs as [|[k v] kvs IH]; intros acc key; [reflexivity|].
  cbn [fold_left last_value]. rewrite IH.
  destruct (last_value key kvs); [reflexivity|].
  unfold insert_pair. cbn [fst snd].
  destruct (string_dec key k) as [->|Hne].
  - by rewrite lookup_insert_eq.
  - by rewrite lookup_insert_ne.
Qed.

Lemma last_value_elem_of {V} (kvs : list (string * V)) key v :
  last_value key kvs = Some v → (key, v) ∈ kvs.
Proof.
  induction kvs as [|[k v'] kvs IH]; [done|].
  cbn [last_value]. destruct (last_value key kvs) as [w|].
  - intros [= ->]. right. by apply IH.
  - destruct (string_dec key k) as [->|Hne]; [|done]. intros [= ->]. by left.
Qed.

Lemma last_value_NoDup {V} (kvs : list (string * V)) key v :
  NoDup kvs.*1 → (key, v) ∈ kvs → last_value key kvs = Some v.
Proof.
  induction kvs as [|[k v'] kvs IH]; intros Hnd Hin; [inversion Hin|].
  cbn in Hnd. apply NoDup_cons in Hnd as [Hk Hnd].
  cbn [last_value]. apply elem_of_cons in Hin as [[= -> ->] | Hin].
  - destruct (last_value k kvs) as [w|] eqn:Ew.
    + exfalso. apply Hk. apply list_elem_of_fmap. exists (k, w).
      split; [done|]. by apply last_value_elem_of.
    + by destruct (string_dec k k).
  - by rewrite (IH Hnd Hin).
Qed.

(** Line 57 on the payload of an object. *)
Lemma decoded_object_payload gap kvs :
  blanks gap = true → plain_pairs kvs →
  @decoded codec (object_payload gap kvs) = Ok (JDict (fold_left insert_pair kvs ∅)).
Proof.
  intros Hgap Hkvs. unfold decoded. cbn [utf8_decode json_loads codec].
  rewrite (decode_object_text gap kvs Hgap Hkvs).
  by apply loads_object_text.
Qed.

(** C10 (amended): when the listener stores a response whose payload is
    an object with strings written without escapes for keys, and such
    strings, integers, [true], [false] or [null] for values, with or
    without blanks after its colons and commas, the record is a [dict]
    that gives every key of the payload the value of the key's last
    member, and has no other key.  When no key is repeated in the payload
    the pairs of the record are exactly the pairs of the payload, keys
    the script does not know included. *)
Theorem stored_record_reproduces_the_pairs gap kvs ds addr r :
  blanks gap = true → plain_pairs kvs →
  devices_after (process_datagram (object_payload gap kvs) addr ds) = ds ++ [r] →
  ∃ m, r = JDict m
       ∧ (∀ key, m !! key = atom_value <$> last_value key kvs)
       ∧ (NoDup kvs.*1 →
          ∀ key x, m !! key = Some x ↔ ∃ a, x = atom_value a ∧ (key, a) ∈ kvs).
Proof.
  intros Hgap Hkvs Hr.
  pose proof (decoded_object_payload gap kvs Hgap Hkvs) as Hv.
  assert (r = JDict (fold_left insert_pair kvs ∅)) as ->.
  { destruct (store_cases ds (object_payload gap kvs, addr)) as [E | (v & Hv' & E)];
      unfold store in E; cbn [fst snd] in *; rewrite E in Hr.
    - apply (f_equal List.length) in Hr. rewrite length_app in Hr. simpl in Hr. lia.
    - apply app_inv_head in Hr. congruence. }
  assert (∀ key, fold_left insert_pair kvs ∅ !! key = atom_value <$> last_value key kvs)
    as Hlook.
  { intros key. rewrite fold_insert_pair_lookup, lookup_empty.
    by destruct (last_value key kvs). }
  eexists. split; [reflexivity|]. split; [exact Hlook|].
  intros Hnd key x. rewrite Hlook. split.
  - destruct (last_value key kvs) as [a|] eqn:Ea; [|done].
    intros [= <-]. exists a. split; [done|]. by apply last_value_elem_of.
  - intros (a & -> & Hin). by rewrite (last_value_NoDup kvs key a Hnd Hin).
Qed.

End PayloadToRecord.

(** ** The theorems at work, and where the description asks for more *)

Section Instances.
Import Fragment Examples.
#[local] Existing Instance Fragment.codec.

(** The reader on the payloads of the examples. *)
Lemma decoded_examples :
  decoded dev_A = Ok doc_A ∧ decoded dev_B = Ok doc_B
  ∧ decoded dev_C = Ok doc_C ∧ decoded spoof = Ok doc_spoof
  ∧ decoded (payload "42") = Ok (JInt 42)
  ∧ decoded (payload "[1,2]") = Ok (JList [JInt 1; JInt 2])
  ∧ decoded [xff; xfe] = Raise UnicodeDecodeError
  ∧ decoded (payload "{'ip':") = Raise JSONDecodeError.
Proof. vm_compute. repeat split; reflexivity. Qed.

(** The session of the protocol description: two responders and a
    datagram that is not text. *)
Example described_session :
  devices_after (listen_for_responses 5
    (hears [from "10.0.0.5" 1 dev_A; from "10.0.0.9" 2 dev_B;
            from "10.0.0.9" 3 [xff; xfe]]) [])
  = [doc_A; doc_B].
Proof. vm_compute. reflexivity. Qed.

(** C1, against the description: a response from 10.0.0.9 whose [ip]
    field says 10.0.0.5 is stored under 10.0.0.5.  A second response
    from 10.0.0.9 is stored again, and the response of the host that
    really is 10.0.0.5 is discarded as a duplicate. *)
Lemma claimed_address_is_the_key :
  devices_after (process_datagram spoof ("10.0.0.9", 5678) []) = [doc_spoof]
  ∧ py_get doc_spoof "ip" JNull = Ok (JStr "10.0.0.5")
  ∧ devices_after (process_datagram spoof ("10.0.0.9", 5678) [doc_spoof])
    = [doc_spoof; doc_spoof]
  ∧ devices_after (process_datagram dev_A ("10.0.0.5", 5678) [doc_spoof])
    = [doc_spoof].
Proof. vm_compute. repeat split; reflexivity. Qed.

(** The theorem of C1 on the response of the real 10.0.0.5, met with
    the record of the spoofed one. *)
Lemma dedup_key_is_the_ip_field_witness :
  dev_A ≠ [] ∧ decoded dev_A = Ok doc_A
  ∧ Forall (λ d, is_dict d = true) [doc_spoof]
  ∧ devices_after (process_datagram dev_A ("10.0.0.5", 5678) [doc_spoof])
    = if existsb (same_ip "10.0.0.5") [doc_spoof]
      then [doc_spoof] else [doc_spoof] ++ [doc_A].
Proof.
  assert (dev_A ≠ []) as Hne by (vm_compute; discriminate).
  assert (decoded dev_A = Ok doc_A) as Hv by (vm_compute; reflexivity).
  assert (Forall (λ d, is_dict d = true) [doc_spoof]) as Hds
    by (repeat constructor).
  refine (conj Hne (conj Hv (conj Hds _))).
  exact (dedup_key_is_the_ip_field [doc_spoof] dev_A "10.0.0.5" 5678 doc_A Hne Hv Hds).
Defined.

(** C2, against the description: two responses from 10.0.0.9 that carry
    no [ip] field are both kept. *)
Lemma same_sender_stored_twice :
  let env := hears [from "10.0.0.9" 1 dev_B; from "10.0.0.9" 2 dev_B] in
  map sender (received (l_start_time env) 5 (l_turns env)) = ["10.0.0.9"; "10.0.0.9"]
  ∧ devices_after (listen_for_responses 5 env []) = [doc_B; doc_B].
Proof. vm_compute. split; reflexivity. Qed.

(** The theorem of C2 on three truthful responses, two of them from
    10.0.0.5. *)
Lemma one_record_per_truthful_sender_witness :
  let env := hears [from "10.0.0.5" 1 dev_A; from "10.0.0.7" 2 dev_C;
                    from "10.0.0.5" 3 spoof] in
  setup_ok 5 env = true
  ∧ Forall truthful (received (l_start_time env) 5 (l_turns env))
  ∧ devices_after (listen_for_responses 5 env [])
    = map document (first_by_host [] (received (l_start_time env) 5 (l_turns env)))
  ∧ map document (first_by_host [] (received (l_start_time env) 5 (l_turns env)))
    = [doc_A; doc_C].
Proof.
  intros env.
  assert (setup_ok 5 env = true) as Hs by reflexivity.
  assert (Forall truthful (received (l_start_time env) 5 (l_turns env))) as Ht.
  { destruct decoded_examples as (HA & _ & HC & Hsp & _).
    repeat constructor; try (vm_compute; discriminate).
    - eexists. split; [exact HA | vm_compute; reflexivity].
    - eexists. split; [exact HC | vm_compute; reflexivity].
    - eexists. split; [exact Hsp | vm_compute; reflexivity]. }
  refine (conj Hs (conj Ht (conj _ _))).
  - exact (proj1 (one_record_per_truthful_sender 5 env Hs Ht)).
  - vm_compute. reflexivity.
Defined.

(** C3, against the description: two responses that decode, from two
    addresses, and one record.  The first says its address is 10.0.0.5,
    and the response that comes from 10.0.0.5 is discarded for it. *)
Lemma distinct_senders_one_record :
  let env := hears [from "10.0.0.9" 1 spoof; from "10.0.0.5" 2 dev_A] in
  map sender (received (l_start_time env) 5 (l_turns env)) = ["10.0.0.9"; "10.0.0.5"]
  ∧ decoded spoof = Ok doc_spoof ∧ decoded dev_A = Ok doc_A
  ∧ devices_after (listen_for_responses 5 env []) = [doc_spoof].
Proof. vm_compute. repeat split; reflexivity. Qed.

(** The theorem of C3 on three responders of which none names another. *)
Lemma every_unclaimed_response_is_kept_witness :
  let env := hears [from "10.0.0.9" 1 dev_B; from "10.0.0.5" 2 dev_A;
                    from "10.0.0.7" 3 dev_C] in
  setup_ok 5 env = true
  ∧ Forall object_response (received (l_start_time env) 5 (l_turns env))
  ∧ ForallOrdPairs (λ dg dg', same_ip (sender dg') (document dg) = false)
                   (received (l_start_time env) 5 (l_turns env))
  ∧ devices_after (listen_for_responses 5 env [])
    = map document (received (l_start_time env) 5 (l_turns env))
  ∧ List.length (devices_after (listen_for_responses 5 env [])) = 3%nat.
Proof.
  intros env.
  assert (setup_ok 5 env = true) as Hs by reflexivity.
  assert (Forall object_response (received (l_start_time env) 5 (l_turns env))) as Ho.
  { destruct decoded_examples as (HA & HB & HC & _).
    repeat constructor; try (vm_compute; discriminate).
    - eexists. exact HB.
    - eexists. exact HA.
    - eexists. exact HC. }
  assert (ForallOrdPairs (λ dg dg', same_ip (sender dg') (document dg) = false)
            (received (l_start_time env) 5 (l_turns env))) as Hp.
  { repeat constructor; vm_compute; reflexivity. }
  refine (conj Hs (conj Ho (conj Hp _))).
  exact (every_unclaimed_response_is_kept 5 env Hs Ho Hp).
Defined.

(** C4, against the description: the main thread may run on from
    [start()] to [sendto] before the listener has done anything.  The
    probe is out and the listener's socket is not bound, not even
    created. *)
Lemma probe_sent_before_bind :
  let c := run 5 (hears []) [MainThread; MainThread; MainThread; MainThread]
               (initial prober_ok []) in
  history c = [ThreadStart; ProbeSocket; ProbeSetsockopt; ProbeSendto]
  ∧ stdout c = [SentBroadcast]
  ∧ (ListenBind ∉ history c)
  ∧ (ListenSocket ∉ history c).
Proof.
  vm_compute. repeat split; try reflexivity;
    intros Hin; repeat (apply elem_of_cons in Hin as [Hin|Hin]; [discriminate|]);
    inversion Hin.
Qed.

(** The theorem of C4 on the schedule in which only the main thread
    runs. *)
Lemma listener_is_started_before_probe_witness :
  history (run 5 (hears []) [MainThread; MainThread; MainThread; MainThread]
               (initial prober_ok []))
  = [ThreadStart; ProbeSocket; ProbeSetsockopt] ++ (ProbeSendto :: [])
  ∧ ThreadStart ∈ [ThreadStart; ProbeSocket; ProbeSetsockopt].
Proof.
  assert (history (run 5 (hears []) [MainThread; MainThread; MainThread; MainThread]
                       (initial prober_ok []))
          = [ThreadStart; ProbeSocket; ProbeSetsockopt] ++ (ProbeSendto :: [])) as Hh
    by reflexivity.
  refine (conj Hh _).
  exact (listener_is_started_before_probe 5 (hears []) prober_ok [] _ _ _ Hh).
Defined.

(** C5, against the description: the text [42] decodes and is not an
    object, but it comes from a host whose address is already the [ip] of
    a stored record.  It is discarded as a duplicate, the list holds
    objects only, and the next new device is recorded. *)
Lemma non_object_not_always_stored :
  decoded (payload "42") = Ok (JInt 42)
  ∧ devices_after (listen_for_responses 5
      (hears [from "10.0.0.5" 1 dev_A; from "10.0.0.5" 2 (payload "42");
              from "10.0.0.7" 3 dev_C]) [])
    = [doc_A; doc_C].
Proof. vm_compute. split; reflexivity. Qed.

(** The theorem of C5 on the text [42] from a new address. *)
Lemma non_object_blocks_the_list_witness :
  let it := from "10.0.0.7" 1 (payload "42") in
  clock it - 0 < 5
  ∧ recvfrom it = RecvDatagram (payload "42") ("10.0.0.7", 5678)
  ∧ payload "42" ≠ []
  ∧ decoded (payload "42") = Ok (JInt 42)
  ∧ is_dict (JInt 42) = false
  ∧ Forall (λ d, is_dict d = true) [doc_A]
  ∧ existsb (same_ip "10.0.0.7") [doc_A] = false
  ∧ devices_after (listen_loop 0 5 [it; from "10.0.0.9" 2 dev_B] [doc_A])
    = [doc_A] ++ [JInt 42].
Proof.
  intros it.
  assert (clock it - 0 < 5) as H1 by (simpl; lia).
  assert (recvfrom it = RecvDatagram (payload "42") ("10.0.0.7", 5678)) as H2
    by reflexivity.
  assert (payload "42" ≠ []) as H3 by (vm_compute; discriminate).
  assert (decoded (payload "42") = Ok (JInt 42)) as H4 by (vm_compute; reflexivity).
  assert (is_dict (JInt 42) = false) as H5 by reflexivity.
  assert (Forall (λ d, is_dict d = true) [doc_A]) as H6 by (repeat constructor).
  assert (existsb (same_ip "10.0.0.7") [doc_A] = false) as H7
    by (vm_compute; reflexivity).
  refine (conj H1 (conj H2 (conj H3 (conj H4 (conj H5 (conj H6 (conj H7 _))))))).
  exact (proj1 (non_object_blocks_the_list 0 5 it [from "10.0.0.9" 2 dev_B]
                  [doc_A] (payload "42") "10.0.0.7" 5678 (JInt 42)
                  H1 H2 H3 H4 H5 H6 H7)).
Defined.

(** C6, against the description: the listener's [bind] fails.  The
    listener thread ends on the error; the caller sees none of it, the
    probe is sent, and [discover_devices] returns after printing that no
    device was found. *)
Lemma bind_failure_is_an_empty_success :
  let c := discover_devices 5 (mkListenerEnv true true false 0 []) prober_ok [] in
  main c = Running []
  ∧ listener c = Some (Raised OSError)
  ∧ discovered_devices c = []
  ∧ stdout c = [SentBroadcast; NoDevices].
Proof. vm_compute. repeat split; reflexivity. Qed.

(** The theorem of C6 on a prober that cannot enable broadcast, and on
    a listener that cannot bind, once with a [sendto] that succeeds and
    once with one that fails as well. *)
Lemma setup_failure_by_thread_witness :
  let unbound := mkListenerEnv true true false 0 [] in
  let no_broadcast := mkProberEnv true false true in
  let no_send := mkProberEnv true true false in
  let c := run 5 unbound (listener_first 5 unbound prober_ok) (initial prober_ok []) in
  let c' := run 5 (hears []) (listener_first 5 (hears []) no_broadcast)
                (initial no_broadcast []) in
  let c'' := run 5 unbound (listener_first 5 unbound no_send) (initial no_send []) in
  finished (main c) = true ∧ finished (main c') = true ∧ finished (main c'') = true
  ∧ main c' = Raised OSError
  ∧ (main c = Running [] ∧ discovered_devices c = []
     ∧ (∃ e, listener c = Some (Raised e))
     ∧ ProbeSendto ∈ history c
     ∧ SentBroadcast ∈ stdout c)
  ∧ (main c'' = Running [] ∧ discovered_devices c'' = []
     ∧ (∃ e, listener c'' = Some (Raised e))
     ∧ ProbeSendto ∈ history c''
     ∧ ErrorSending OSError ∈ stdout c'').
Proof.
  intros unbound no_broadcast no_send c c' c''.
  assert (finished (main c) = true) as Hf by (vm_compute; reflexivity).
  assert (finished (main c') = true) as Hf' by (vm_compute; reflexivity).
  assert (finished (main c'') = true) as Hf'' by (vm_compute; reflexivity).
  subst c c' c'' unbound no_broadcast no_send.
  refine (conj Hf (conj Hf' (conj Hf'' (conj _ (conj _ _))))).
  - exact (proj1 (proj2 (setup_failure_by_thread 5 (hears [])
                           (mkProberEnv true false true) []) _ Hf') eq_refl).
  - exact (proj2 (proj2 (setup_failure_by_thread 5 (mkListenerEnv true true false 0 [])
                           prober_ok []) _ Hf) eq_refl eq_refl).
  - exact (proj2 (proj2 (setup_failure_by_thread 5 (mkListenerEnv true true false 0 [])
                           (mkProberEnv true true false) []) _ Hf'') eq_refl eq_refl).
Defined.

(** C7, against the description: the text [42] is valid UTF-8 and not
    a document of keys and values, yet a record is made of it, and the
    response of dev-B that comes after it is lost; without it dev-B is
    recorded. *)
Lemma number_is_recorded_and_hides_the_next :
  let it := from "10.0.0.7" 1 (payload "42") in
  decoded (payload "42") = Ok (JInt 42)
  ∧ is_dict (JInt 42) = false
  ∧ devices_after (turn (recvfrom it) []) = [JInt 42]
  ∧ devices_after (listen_for_responses 5 (hears [it; from "10.0.0.9" 2 dev_B]) [])
    = [JInt 42]
  ∧ devices_after (listen_for_responses 5 (hears [from "10.0.0.9" 2 dev_B]) [])
    = [doc_B].
Proof. vm_compute. repeat split; reflexivity. Qed.

(** The theorem of C7 on two bytes that are not UTF-8, between two
    responses. *)
Lemma undecodable_datagram_is_passed_over_witness :
  let it := from "10.0.0.9" 2 [xff; xfe] in
  let before := [from "10.0.0.5" 1 dev_A] in
  let after := [from "10.0.0.9" 3 dev_B] in
  recvfrom it = RecvDatagram [xff; xfe] ("10.0.0.9", 5678)
  ∧ undecodable [xff; xfe]
  ∧ clock it - 0 < 5
  ∧ devices_after (turn (recvfrom it) [doc_A]) = [doc_A]
  ∧ devices_after (listen_loop 0 5 (before ++ it :: after) [])
    = devices_after (listen_loop 0 5 (before ++ after) [])
  ∧ devices_after (listen_loop 0 5 (before ++ after) []) = [doc_A; doc_B].
Proof.
  intros it before after.
  assert (recvfrom it = RecvDatagram [xff; xfe] ("10.0.0.9", 5678)) as H1
    by reflexivity.
  assert (undecodable [xff; xfe]) as H2 by (left; eexists; vm_compute; reflexivity).
  assert (clock it - 0 < 5) as H3 by (simpl; lia).
  refine (conj H1 (conj H2 (conj H3 (conj _ (conj _ _))))).
  - exact (proj1 (proj2 (undecodable_datagram_is_passed_over 0 5 before it after
                           [doc_A] [xff; xfe] ("10.0.0.9", 5678) H1 H2 H3))).
  - exact (proj2 (proj2 (proj2 (undecodable_datagram_is_passed_over 0 5 before it after
                                  [] [xff; xfe] ("10.0.0.9", 5678) H1 H2 H3)))).
  - vm_compute. reflexivity.
Defined.

(** The theorem of C8 on a session in which [sendto] fails and two
    devices answer all the same: both are in the list returned. *)
Lemma send_failure_is_not_fatal_witness :
  let lenv := hears [from "10.0.0.5" 1 dev_A; from "10.0.0.9" 2 dev_B] in
  let penv := mkProberEnv true true false in
  let c := run 5 lenv (listener_first 5 lenv penv) (initial penv []) in
  p_socket_ok penv = true ∧ p_setsockopt_ok penv = true ∧ p_sendto_ok penv = false
  ∧ finished (main c) = true
  ∧ main c = Running []
  ∧ ErrorSending OSError ∈ stdout c
  ∧ discovered_devices c = [doc_A; doc_B].
Proof.
  intros lenv penv c.
  assert (finished (main c) = true) as Hf by (vm_compute; reflexivity).
  assert (Forall object_response (received (l_start_time lenv) 5 (l_turns lenv))) as Hobj.
  { destruct decoded_examples as (HA & HB & _).
    constructor; [split; [vm_compute; discriminate | eexists; exact HA]|].
    constructor; [split; [vm_compute; discriminate | eexists; exact HB]|].
    constructor. }
  assert (ForallOrdPairs (λ dg dg', same_ip (sender dg') (document dg) = false)
            (received (l_start_time lenv) 5 (l_turns lenv))) as Hpairs.
  { repeat constructor; vm_compute; reflexivity. }
  assert (Forall (λ dg, existsb (same_ip (sender dg)) [] = false)
            (received (l_start_time lenv) 5 (l_turns lenv))) as Hfresh.
  { repeat constructor. }
  assert (Forall (λ d, is_dict d = true) []) as Hds by constructor.
  assert ([] ++ map document (received (l_start_time lenv) 5 (l_turns lenv))
          = [doc_A; doc_B]) as Hdocs by (vm_compute; reflexivity).
  subst c lenv penv.
  destruct (proj2 (send_failure_is_not_fatal 5
                     (hears [from "10.0.0.5" 1 dev_A; from "10.0.0.9" 2 dev_B])
                     (mkProberEnv true true false) [] eq_refl eq_refl eq_refl) _ Hf)
    as (Hret & Hline & _ & _ & Hlist & _).
  refine (conj eq_refl (conj eq_refl (conj eq_refl (conj Hf (conj Hret (conj Hline _)))))).
  exact (eq_trans (Hlist eq_refl Hobj Hds Hfresh Hpairs) Hdocs).
Defined.

(** C9, against the description: a first session records a device; a
    second one, in which nothing answers, ends with that device in its
    result and reports one device found. *)
Lemma second_session_inherits_the_list :
  let c1 := discover_devices 5 (hears [from "10.0.0.5" 1 dev_A]) prober_ok [] in
  let c2 := discover_devices 5 (hears []) prober_ok (discovered_devices c1) in
  received 0 5 [] = []
  ∧ main c1 = Running [] ∧ main c2 = Running []
  ∧ discovered_devices c2 = [doc_A]
  ∧ stdout c2 = [Listening 5; SentBroadcast; FoundDevices 1].
Proof. vm_compute. repeat split; reflexivity. Qed.

(** The theorem of C9 on two sessions with one responder each. *)
Lemma list_outlives_the_session_witness :
  let lenv1 := hears [from "10.0.0.5" 1 dev_A] in
  let lenv2 := hears [from "10.0.0.7" 1 dev_C] in
  let c1 := run 5 lenv1 (listener_first 5 lenv1 prober_ok) (initial prober_ok []) in
  let c2 := run 5 lenv2 (listener_first 5 lenv2 prober_ok)
                (initial prober_ok (discovered_devices c1)) in
  main c1 = Running [] ∧ main c2 = Running []
  ∧ discovered_devices c1 = devices_after (listen_for_responses 5 lenv1 [])
  ∧ discovered_devices c2
    = devices_after (listen_for_responses 5 lenv2 (discovered_devices c1))
  ∧ ∃ new, discovered_devices c2 = discovered_devices c1 ++ new.
Proof.
  intros lenv1 lenv2 c1 c2.
  assert (main c1 = Running []) as H1 by (vm_compute; reflexivity).
  assert (main c2 = Running []) as H2 by (vm_compute; reflexivity).
  subst c2 c1 lenv2 lenv1.
  refine (conj H1 (conj H2 _)).
  exact (list_outlives_the_session 5 _ prober_ok _ 5 _ prober_ok _ [] H1 H2).
Defined.

(** C10, against the description: a payload that gives the key [zone]
    twice.  The record has the key once, with the value given last; the
    pair that gives it [a] is in the payload and not in the record. *)
Lemma repeated_key_keeps_its_last_value :
  let data := payload "{'zone':'a','zone':'b'}" in
  let r := JDict (<["zone" := JStr "b"]> ∅) in
  data = object_payload [] [("zone", AStr "a"); ("zone", AStr "b")]
  ∧ decoded data = Ok r
  ∧ devices_after (process_datagram data ("10.0.0.7", 5678) []) = [r]
  ∧ py_get r "zone" JNull = Ok (JStr "b").
Proof. vm_compute. repeat split; reflexivity. Qed.

(** The theorem of C10 on a response with keys the script does not
    read, written with a blank after each colon and comma. *)
Lemma stored_record_reproduces_the_pairs_witness :
  let kvs := [("hostname", AStr "café-D"); ("ip", AStr "10.0.0.8");
              ("uptime", AInt 86400); ("offset", AInt (-5)); ("armed", ABool true)] in
  let r := JDict (<["hostname" := JStr "café-D"]>
                  (<["ip" := JStr "10.0.0.8"]>
                   (<["uptime" := JInt 86400]>
                    (<["offset" := JInt (-5)]> (<["armed" := JBool true]> ∅))))) in
  object_payload [" "%char] kvs
  = payload ("{'hostname': 'café-D', 'ip': '10.0.0.8', "
             ++ "'uptime': 86400, 'offset': -5, 'armed': true}")
  ∧ blanks [" "%char] = true ∧ plain_pairs kvs
  ∧ devices_after (process_datagram (object_payload [" "%char] kvs)
                     ("10.0.0.8", 5678) [doc_A]) = [doc_A] ++ [r]
  ∧ py_get r "uptime" JNull = Ok (JInt 86400)
  ∧ ∃ m, r = JDict m
         ∧ (∀ key, m !! key = atom_value <$> last_value key kvs)
         ∧ (NoDup kvs.*1 →
            ∀ key x, m !! key = Some x ↔ ∃ a, x = atom_value a ∧ (key, a) ∈ kvs).
Proof.
  intros kvs r.
  assert (blanks [" "%char] = true) as Hgap by reflexivity.
  assert (plain_pairs kvs) as Hkvs by (repeat constructor).
  assert (devices_after (process_datagram (object_payload [" "%char] kvs)
                           ("10.0.0.8", 5678) [doc_A]) = [doc_A] ++ [r]) as Hr
    by (vm_compute; reflexivity).
  subst kvs r.
  refine (conj _ (conj Hgap (conj Hkvs (conj Hr (conj _ _))))).
  - vm_compute. reflexivity.
  - vm_compute. reflexivity.
  - exact (stored_record_reproduces_the_pairs [" "%char] _ [doc_A] ("10.0.0.8", 5678)
             _ Hgap Hkvs Hr).
Defined.

End Instances.

(** * Further properties of the script *)

(** ** The listener *)

Section ListenerMore.
Context `{Codec}.

(** X1: no payload ends the loop.  It returns normally unless a
    [recvfrom] within the window raises a socket error other than a
    timeout, and then it ends on that error. *)
Theorem loop_ends_on_socket_errors_only start timeout turns ds :
  result (listen_loop start timeout turns ds)
  = if socket_error start timeout turns then Raise OSError else Ok tt.
Proof.
  revert ds. induction turns as [|it rest IH]; intros ds; [reflexivity|].
  rewrite listen_loop_cons. simpl.
  destruct (clock it - start <? timeout); [|reflexivity].
  destruct (recvfrom it) as [data addr| |].
  - destruct (turn_datagram data addr ds) as [out E].
    destruct (bind_ok _ (λ _, listen_loop start timeout rest) _ _ _ _ E) as (-> & _).
    apply IH.
  - destruct (bind_ok _ (λ _, listen_loop start timeout rest) _ _ _ _
                (turn_timeout ds)) as (-> & _).
    apply IH.
  - by rewrite (bind_raise _ _ _ _ _ _ (turn_error ds)).
Qed.

(** X2: what the clock shows past the deadline ends the loop: the turn
    whose reading has reached the deadline and all that would come after
    it leave no trace, neither in the list nor on standard output. *)
Theorem nothing_after_the_deadline start timeout before it after ds :
  timeout ≤ clock it - start →
  listen_loop start timeout (before ++ it :: after) ds
  = listen_loop start timeout before ds.
Proof.
  intros Hlate. revert ds. induction before as [|x before IH]; intros ds.
  - rewrite app_nil_l, listen_loop_cons.
    assert ((clock it - start <? timeout) = false) as -> by lia. reflexivity.
  - rewrite <- app_comm_cons, !listen_loop_cons.
    destruct (clock x - start <? timeout); [|reflexivity].
    apply bind_ext. intros _ ds'. apply IH.
Qed.

(** X3: with a timeout of zero and a first clock reading that is not
    before [start_time], the body of the loop never runs: the listener
    announces itself, records nothing and returns. *)
Theorem zero_timeout_hears_nothing env ds :
  l_socket_ok env = true → l_setsockopt_ok env = true → l_bind_ok env = true →
  (∀ it rest, l_turns env = it :: rest → l_start_time env ≤ clock it) →
  listen_for_responses 0 env ds = (Ok tt, ds, [Listening 0]).
Proof.
  intros Hs Ho Hb Hclock.
  rewrite listen_for_responses_loop
    by (unfold setup_ok; rewrite Hs, Ho, Hb; reflexivity).
  destruct (l_turns env) as [|it rest] eqn:Et; [reflexivity|].
  rewrite listen_loop_cons.
  specialize (Hclock it rest eq_refl).
  assert ((clock it - l_start_time env <? 0) = false) as -> by lia.
  reflexivity.
Qed.

(** X4: a turn in which nothing is to be read, a timeout of [recvfrom]
    or a datagram without data, leaves no trace: the session goes on and
    ends, list and output included, as it does without that turn. *)
Theorem idle_turn_leaves_no_trace start timeout before it after ds :
  idle (recvfrom it) → clock it - start < timeout →
  listen_loop start timeout (before ++ it :: after) ds
  = listen_loop start timeout (before ++ after) ds.
Proof.
  intros Hidle Hwin.
  assert (∀ ds', turn (recvfrom it) ds' = (Ok tt, ds', [])) as Hturn.
  { intros ds'. destruct Hidle as [-> | [addr ->]]; reflexivity. }
  revert ds. induction before as [|x before IH]; intros ds.
  - rewrite !app_nil_l, listen_loop_cons.
    assert ((clock it - start <? timeout) = true) as -> by lia.
    unfold bind. rewrite Hturn.
    by destruct (listen_loop start timeout after ds) as [[r ds'] out].
  - rewrite <- !app_comm_cons, !listen_loop_cons.
    destruct (clock x - start <? timeout); [|reflexivity].
    apply bind_ext. intros _ ds'. apply IH.
Qed.

(** X5: the listener invents nothing.  Every record of the list after
    [listen_for_responses] was in it before or is the decoded document of
    a datagram with data received within the window, and the list has
    grown by at most one record for each datagram received. *)
Theorem records_are_received_documents timeout env ds :
  (∀ r, r ∈ devices_after (listen_for_responses timeout env ds) →
        r ∈ ds ∨ ∃ dg, dg ∈ received (l_start_time env) timeout (l_turns env)
                       ∧ dg.1 ≠ [] ∧ decoded dg.1 = Ok r)
  ∧ (List.length (devices_after (listen_for_responses timeout env ds))
     ≤ List.length ds
       + List.length (received (l_start_time env) timeout (l_turns env)))%nat.
Proof.
  rewrite listen_for_responses_devices.
  destruct (setup_ok timeout env); [|split; [by left | lia]].
  generalize (received (l_start_time env) timeout (l_turns env)). intros l.
  split.
  - revert ds. induction l as [|dg l IH]; intros ds r; simpl; [by left|].
    intros [Hin | (dg' & Hin & Hdg')]%IH.
    + destruct (decide (dg.1 = [])) as [Hempty|Hne].
      { rewrite (store_empty ds dg Hempty) in Hin. by left. }
      destruct (store_cases ds dg) as [E | (v & Hv & E)]; rewrite E in Hin.
      * by left.
      * apply elem_of_app in Hin as [Hin | ->%list_elem_of_singleton]; [by left|].
        right. exists dg. split; [by left | done].
    + right. exists dg'. split; [by right | done].
  - revert ds. induction l as [|dg l IH]; intros ds; simpl; [lia|].
    specialize (IH (store ds dg)).
    destruct (store_cases ds dg) as [E | (v & _ & E)]; rewrite E in IH |- *.
    + lia.
    + rewrite length_app in IH. simpl in IH. lia.
Qed.

End ListenerMore.

Section PrintingMore.
Context `{Codec}.

(** X6: [print_device_info] never touches the list.  For an object it
    prints the banner, then the three fields with [Unknown] for each that
    is missing, the firmware line exactly when the key [version] is
    present, and the closing rule; it stops with [UnicodeEncodeError] at
    the first of these values that standard output cannot encode, what
    comes before it printed, and returns normally when there is none.
    For anything else it raises [AttributeError] after the banner
    alone. *)
Theorem device_info_lines device ds :
  devices_after (print_device_info device ds) = ds
  ∧ match device with
    | JDict m =>
        let h := default (JStr "Unknown") (m !! "hostname") in
        let i := default (JStr "Unknown") (m !! "ip") in
        let t := default (JStr "Unknown") (m !! "type") in
        print_device_info device ds
        = if negb (stdout_encodes h) then
            (Raise UnicodeEncodeError, ds, [Banner])
          else if negb (stdout_encodes i) then
            (Raise UnicodeEncodeError, ds, [Banner; Hostname h])
          else if negb (stdout_encodes t) then
            (Raise UnicodeEncodeError, ds, [Banner; Hostname h; IPAddress i])
          else match m !! "version" with
               | Some v =>
                   if stdout_encodes v
                   then (Ok tt, ds, [Banner; Hostname h; IPAddress i; DeviceType t;
                                     FirmwareVersion v; Rule])
                   else (Raise UnicodeEncodeError, ds,
                         [Banner; Hostname h; IPAddress i; DeviceType t])
               | None =>
                   (Ok tt, ds, [Banner; Hostname h; IPAddress i; DeviceType t; Rule])
               end
    | _ => print_device_info device ds = (Raise AttributeError, ds, [Banner])
    end.
Proof.
  split; [apply print_device_info_devices|].
  destruct device; try reflexivity.
  unfold print_device_info, print_value. unfold_M. simpl.
  destruct (m !! "hostname"), (m !! "ip"), (m !! "type"), (m !! "version"); simpl;
    repeat (destruct (stdout_encodes _); simpl; try reflexivity).
Qed.

(** X7: a datagram with data that does not decode costs one line of
    output and nothing else.  [JSONDecodeError] is reported as a non-JSON
    response from the sender, any other exception of the decoding as an
    error with the exception; the list stays as it is and the body
    returns. *)
Theorem undecodable_datagram_is_reported data addr ds e :
  data ≠ [] → decoded data = Raise e →
  process_datagram data addr ds
  = (Ok tt, ds,
     [match e with
      | JSONDecodeError => NonJSONResponse addr.1
      | _ => ErrorProcessing addr.1 e
      end]).
Proof.
  intros Hne He. unfold process_datagram. destruct data as [|b data]; [done|].
  unfold decode_and_store, on_error. unfold_M. rewrite He. simpl.
  destruct e; reflexivity.
Qed.

(** X8: what a datagram that decodes does when the list holds objects
    only.  If the sender's address is the [ip] of a stored record nothing
    happens and nothing is printed.  Otherwise the document is appended
    first and printed next; when the printing raises, the lines it had
    printed stay, the exception is reported as an error for the sender,
    and the record stays in the list.  That is so for anything that is not
    an object, which fails on [.get] after the banner, and for an object
    with a value that standard output cannot encode.  The body returns in
    every case. *)
Theorem decoded_datagram_outcome data host port v ds :
  data ≠ [] → decoded data = Ok v → Forall (λ d, is_dict d = true) ds →
  let shown := print_device_info v (ds ++ [v]) in
  process_datagram data (host, port) ds
  = (if existsb (same_ip host) ds
     then (Ok tt, ds, [])
     else (Ok tt, ds ++ [v],
           printed shown ++ match result shown with
                            | Ok _ => []
                            | Raise e => [ErrorProcessing host e]
                            end))
  ∧ (is_dict v = false →
     printed shown = [Banner] ∧ result shown = Raise AttributeError)
  ∧ (is_dict v = true →
     result shown = Ok tt ∨ result shown = Raise UnicodeEncodeError).
Proof.
  intros Hne Hv (ips & Hips & Hin)%ip_fields_of_dicts shown. subst shown.
  split; [|split].
  - unfold process_datagram. destruct data as [|b data]; [done|].
    unfold decode_and_store, on_error. unfold_M. rewrite Hv. simpl.
    rewrite Hips. simpl. rewrite Hin.
    destruct (existsb (same_ip host) ds); simpl; [reflexivity|].
    pose proof (print_device_info_devices v (ds ++ [v])) as Hd.
    assert (result (print_device_info v (ds ++ [v])) ≠ Raise JSONDecodeError) as Hr.
    { destruct (is_dict v) eqn:Ev.
      - destruct v; try discriminate.
        destruct (print_device_info_dict m (ds ++ [JDict m])) as [-> | ->]; done.
      - by rewrite (print_device_info_other v _ Ev). }
    unfold result, devices_after in *.
    destruct (print_device_info v (ds ++ [v])) as [[[[]|e] ds'] out]; simpl in *; subst ds'.
    + by rewrite app_nil_r.
    + by destruct e.
  - intros Ev. by rewrite (print_device_info_other v _ Ev).
  - intros Ev. destruct v; try discriminate. apply print_device_info_dict.
Qed.

(** X9: a response that carries its sender's address is stored at most
    once, whatever the list of objects it meets: processing it a second
    time right away changes nothing. *)
Theorem truthful_response_twice ds dg :
  truthful dg → Forall (λ d, is_dict d = true) ds →
  store (store ds dg) dg = store ds dg.
Proof.
  intros (Hne & m & Hm & Hip) Hds.
  rewrite (store_decoded ds dg (JDict m)) by done. unfold sender in *.
  destruct (existsb (same_ip dg.2.1) ds) eqn:Eseen.
  - rewrite (store_decoded ds dg (JDict m)) by done. by rewrite Eseen.
  - assert (Forall (λ d, is_dict d = true) (ds ++ [JDict m])) as Hds'.
    { apply Forall_app. split; [done|]. by constructor. }
    rewrite (store_decoded _ dg (JDict m)) by done.
    rewrite existsb_app. simpl. unfold same_ip at 2. simpl. rewrite Hip. simpl.
    destruct (string_dec dg.2.1 dg.2.1) as [_|Hneq]; [|done].
    by rewrite orb_true_r.
Qed.

End PrintingMore.

(** ** The prober *)

(** X10: [send_discovery_broadcast] never touches the list.  It raises,
    with nothing printed, exactly when its socket cannot be created or
    broadcast-enabled; otherwise it returns after one line, that the
    broadcast was sent or that sending failed, whatever [sendto] did. *)
Theorem prober_outcome env ds :
  send_discovery_broadcast env ds
  = if p_socket_ok env && p_setsockopt_ok env
    then (Ok tt, ds,
          [if p_sendto_ok env then SentBroadcast else ErrorSending OSError])
    else (Raise OSError, ds, []).
Proof.
  unfold send_discovery_broadcast, guarded_send. unfold_M.
  destruct (p_socket_ok env), (p_setsockopt_ok env), (p_sendto_ok env);
    reflexivity.
Qed.

(** ** The two threads, at every point of every schedule *)

Section SessionMore.
Context `{Codec}.
Variable timeout : Z.
Variable lenv : listener_env.
Variable penv : prober_env.
Variable ds0 : list json.

Lemma sendto_calls_of_main h :
  sendto_calls h = sendto_calls (List.filter of_main h).
Proof.
  unfold sendto_calls. f_equal.
  induction h as [|l h IH]; [done|]. simpl.
  destruct l; simpl; by rewrite ?IH.
Qed.

(** X11: a session calls [sendto] at most once, whatever the schedule,
    there is no second try: the call has been made exactly once by the
    time [discover_devices] returns, whether it sent the probe or raised,
    and not at all when [discover_devices] ends on an exception. *)
Theorem sendto_is_called_once s :
  let c := run timeout lenv s (initial penv ds0) in
  (sendto_calls (history c) ≤ 1)%nat
  ∧ (main c = Running [] → sendto_calls (history c) = 1%nat)
  ∧ (∀ e, main c = Raised e → sendto_calls (history c) = 0%nat).
Proof.
  intros c.
  destruct (program_order_holds timeout lenv penv ds0 s) as [(k & Hhm & Hm) _].
  fold c in Hhm, Hm.
  rewrite sendto_calls_of_main, Hhm.
  destruct k as [|[|[|[|[|[|[|[|k]]]]]]]]; simpl in *;
    (split; [unfold sendto_calls; simpl; lia|]);
    (split; [intros E; rewrite E in Hm; try discriminate; reflexivity
            |intros e E; rewrite E in Hm; try lia; reflexivity]).
Qed.

(** X12: the listener reads no datagram before it has bound its socket:
    in the order of the statements run, whatever the schedule, every turn
    of the receive loop comes after the listener's [bind]. *)
Theorem no_receive_before_bind s before after :
  history (run timeout lenv s (initial penv ds0)) = before ++ ListenTurn :: after →
  ListenBind ∈ before.
Proof.
  intros Hh. destruct (program_order_holds timeout lenv penv ds0 s) as [_ (j & Hhl & _)].
  rewrite Hh, List.filter_app in Hhl. simpl in Hhl.
  assert (ListenBind ∈ List.filter (λ l, negb (of_main l)) before) as Hin.
  { unfold listener_steps in Hhl. simpl in Hhl.
    destruct (List.filter (λ l, negb (of_main l)) before)
      as [|l1 [|l2 [|l3 [|l4 p]]]];
      destruct j as [|[|[|[|[|j]]]]]; simplify_eq/=; do 3 right; by left. }
  apply list_elem_of_In, List.filter_In in Hin as [Hin _].
  by apply list_elem_of_In.
Qed.

(** X13: the summary is printed only once the listener has ended, when
    the list is the one [listen_for_responses] leaves. *)
Theorem summary_waits_for_the_listener s :
  let c := run timeout lenv s (initial penv ds0) in
  Summary ∈ history c →
  (∃ l, listener c = Some l ∧ finished l = true)
  ∧ discovered_devices c = devices_after (listen_for_responses timeout lenv ds0).
Proof.
  intros c Hin. destruct (program_order_holds timeout lenv penv ds0 s) as [(k & Hhm & Hm) _].
  fold c in Hhm, Hm.
  assert (Summary ∈ (take k (main_steps penv)).*1) as Hk.
  { rewrite <- Hhm. apply list_elem_of_In, List.filter_In.
    split; [by apply list_elem_of_In | done]. }
  assert (main c = Running []) as Hret.
  { destruct k as [|[|[|[|[|[|[|[|k]]]]]]]]; simpl in Hk;
      repeat (apply elem_of_cons in Hk as [Hk|Hk]; [discriminate|]);
      try (by inversion Hk).
    all: destruct (main c); simpl in Hm; [by subst | lia]. }
  assert (finished (main c) = true) as Hfin by (by rewrite Hret).
  destruct (session_end timeout lenv penv s ds0 Hfin)
    as [(_ & _ & _ & l & Hl & Hlfin) | (Hr & _)]; [|subst c; congruence].
  split; [eauto|].
  by destruct (listener_end timeout lenv penv s ds0 l Hl Hlfin) as [Hd _].
Qed.

End SessionMore.

Section SessionOutcome.
Context `{Codec}.
Variable timeout : Z.
Variable lenv : listener_env.
Variable penv : prober_env.
Variable ds0 : list json.

Lemma appending_ret : appending (ret tt).
Proof. intros ds. exists []. by rewrite app_nil_r. Qed.

Lemma main_steps_appending : Forall (λ x, appending x.2) (main_steps penv).
Proof.
  unfold main_steps, prober_steps, guarded_send, summary. simpl.
  repeat constructor; simpl; intros ds; exists []; rewrite app_nil_r; unfold_M;
    try reflexivity.
  - by destruct (p_socket_ok penv).
  - by destruct (p_setsockopt_ok penv).
  - by destruct (p_sendto_ok penv).
  - by destruct ds.
Qed.

Lemma turn_appending r : appending (turn r).
Proof.
  intros ds. destruct r as [data addr| |].
  - destruct (turn_datagram data addr ds) as [out ->].
    apply (store_appends ds (data, addr)).
  - exists []. by rewrite app_nil_r.
  - exists []. by rewrite app_nil_r.
Qed.

Lemma listener_steps_appending :
  Forall (λ x, appending x.2) (listener_steps timeout lenv).
Proof.
  unfold listener_steps. apply Forall_app. split; [|apply Forall_app; split].
  - repeat constructor; simpl; intros ds; exists []; rewrite app_nil_r; unfold_M.
    + by destruct (l_socket_ok lenv).
    + by destruct (l_setsockopt_ok lenv).
    + by destruct (timeout <? 0).
    + by destruct (l_bind_ok lenv).
    + reflexivity.
  - generalize (l_start_time lenv). intros start.
    induction (l_turns lenv) as [|it rest IH]; simpl; [constructor|].
    destruct (clock it - start <? timeout); constructor; [|done].
    apply turn_appending.
  - repeat constructor. apply appending_ret.
Qed.

(** The list after a step is the list before it, or what the statement
    at the head of a thread's program makes of it. *)
Lemma step_devices t c :
  discovered_devices (step timeout lenv t c) = discovered_devices c
  ∨ ∃ lab stmt rest,
      (main c = Running ((lab, stmt) :: rest)
       ∨ listener c = Some (Running ((lab, stmt) :: rest)))
      ∧ discovered_devices (step timeout lenv t c)
        = devices_after (stmt (discovered_devices c)).
Proof.
  destruct t; unfold step.
  - destruct (main c) as [[|[lab stmt] rest]|e] eqn:Em; try (by left).
    destruct lab;
      try (right; do 3 eexists; split; [left; reflexivity|];
           unfold devices_after;
           by destruct (stmt (discovered_devices c)) as [[r ds] out]).
    + by left.
    + destruct (listener c) as [l|]; [destruct (finished l)|]; by left.
  - destruct (listener c) as [[[|[lab stmt] rest]|e]|] eqn:El; try (by left).
    right. exists lab, stmt, rest. split; [by right|].
    unfold devices_after.
    by destruct (stmt (discovered_devices c)) as [[r ds] out].
Qed.

(** A step, taken at any point a session can reach, leaves the records
    of the list in place and at most adds some at its end. *)
Lemma step_appends s t :
  ∃ more,
    discovered_devices (step timeout lenv t (run timeout lenv s (initial penv ds0)))
    = discovered_devices (run timeout lenv s (initial penv ds0)) ++ more.
Proof.
  pose proof (program_order_holds timeout lenv penv ds0 s) as Hord.
  set (c := run timeout lenv s (initial penv ds0)) in *.
  destruct (step_devices t c) as [-> | (lab & stmt & rest & Hat & ->)].
  { exists []. by rewrite app_nil_r. }
  assert (appending stmt) as Happ.
  { destruct Hord as [(k & _ & Hm) (j & _ & Hl)].
    destruct Hat as [Em | El].
    - rewrite Em in Hm. pose proof main_steps_appending as Hall.
      rewrite Forall_forall in Hall. apply (Hall (lab, stmt)).
      symmetry in Hm. apply drop_cons_inv in Hm as [Hlook _].
      by eapply list_elem_of_lookup_2.
    - rewrite El in Hl. pose proof listener_steps_appending as Hall.
      rewrite Forall_forall in Hall. apply (Hall (lab, stmt)).
      symmetry in Hl. apply drop_cons_inv in Hl as [Hlook _].
      by eapply list_elem_of_lookup_2. }
  apply Happ.
Qed.

(** X14: a record, once in the list, is never removed, replaced or
    moved, whatever the schedule: the list at any later point of a
    session is the list at any earlier point, the start included,
    followed by the records added in between. *)
Theorem list_only_grows s s' :
  ∃ new,
    discovered_devices (run timeout lenv (s ++ s') (initial penv ds0))
    = discovered_devices (run timeout lenv s (initial penv ds0)) ++ new.
Proof.
  induction s' as [|t s' [new IH]] using rev_ind.
  - exists []. by rewrite !app_nil_r.
  - rewrite app_assoc, run_snoc.
    destruct (step_appends (s ++ s') t) as [more ->].
    exists (new ++ more). by rewrite IH, app_assoc.
Qed.

(** X15: for given answers of the socket calls, those of the successive
    [recvfrom] calls among them, the outcome of a session does not depend
    on how the statements of the two threads interleave.  Two runs that
    end, end alike for the caller; and when they return they leave the
    same list, and the listener has ended the same way in both, returned
    or raised the same exception.  (Which datagrams arrive is part of what
    is given here.) *)
Theorem outcome_is_schedule_independent s1 s2 :
  let c1 := run timeout lenv s1 (initial penv ds0) in
  let c2 := run timeout lenv s2 (initial penv ds0) in
  finished (main c1) = true → finished (main c2) = true →
  main c1 = main c2
  ∧ (main c1 = Running [] →
     discovered_devices c1 = discovered_devices c2
     ∧ listener c1 = listener c2
     ∧ ∃ l, listener c1 = Some l ∧ finished l = true).
Proof.
  intros c1 c2 Hf1 Hf2. subst c1 c2.
  destruct (session_end timeout lenv penv s1 ds0 Hf1)
    as [(Hr1 & Hok1 & _ & l1 & Hl1 & Hlf1) | (Hr1 & Hbad1)];
  destruct (session_end timeout lenv penv s2 ds0 Hf2)
    as [(Hr2 & Hok2 & _ & l2 & Hl2 & Hlf2) | (Hr2 & Hbad2)];
    try congruence.
  - split; [congruence|]. intros _.
    destruct (listener_end timeout lenv penv s1 ds0 l1 Hl1 Hlf1) as [Hd1 He1].
    destruct (listener_end timeout lenv penv s2 ds0 l2 Hl2 Hlf2) as [Hd2 He2].
    split; [congruence|]. split; [|eauto].
    rewrite Hl1, Hl2. f_equal.
    destruct l1 as [[|x1 rest1]|e1], l2 as [[|x2 rest2]|e2];
      try discriminate; congruence.
  - split; [congruence|]. intros E. congruence.
Qed.

(** X16: the two threads never block each other.  At every point a
    session can reach, both threads have ended, or the main thread can
    run its next statement, or, with the main thread waiting in [join] or
    ended on the prober's error, the listener can run its next statement.
    (That the listener's loop comes to its end is the matter of the
    deadline, not of this statement.) *)
Theorem threads_never_block_each_other s :
  let c := run timeout lenv s (initial penv ds0) in
  (finished (main c) = true ∧ ∃ l, listener c = Some l ∧ finished l = true)
  ∨ (∃ lab, history (step timeout lenv MainThread c) = history c ++ [lab])
  ∨ ((main c = Running (drop 5 (main_steps penv)) ∨ main c = Raised OSError)
     ∧ ∃ lab, history (step timeout lenv ListenerThread c) = history c ++ [lab]).
Proof.
  intros c. subst c.
  destruct (session_inv_run timeout lenv penv ds0 s _
              (session_inv_initial timeout lenv penv ds0)) as [Hmain _ _].
  set (c := run timeout lenv s (initial penv ds0)) in *.
  assert (∀ l, listener c = Some l → finished l = false →
            ∃ lab, history (step timeout lenv ListenerThread c) = history c ++ [lab])
    as Hlistener.
  { intros l El Ef. destruct l as [[|[lab stmt] rest]|e]; try discriminate.
    exists lab. unfold step. rewrite El.
    by destruct (stmt (discovered_devices c)) as [[r ds] out]. }
  destruct Hmain as [(k & Hk & Hat & _ & _ & _ & Hjoin & Hzero) | (Hr & _ & Hl)].
  - unfold main_at in Hat.
    destruct k as [|[|[|[|[|[|[|[|k]]]]]]]]; try lia; simpl in Hat.
    + right. left. exists ThreadStart. unfold step. by rewrite Hat.
    + right. left. exists ProbeSocket. unfold step. rewrite Hat.
      by destruct (syscall _ _) as [[r ds] out].
    + right. left. exists ProbeSetsockopt. unfold step. rewrite Hat.
      by destruct (syscall _ _) as [[r ds] out].
    + right. left. exists ProbeSendto. unfold step. rewrite Hat.
      by destruct (guarded_send _ _) as [[r ds] out].
    + right. left. exists ProbeClose. unfold step. by rewrite Hat.
    + (* [join]: the main thread goes on, or the listener can *)
      destruct (listener c) as [l|] eqn:El.
      2:{ destruct Hzero as [_ Hz]. by specialize (Hz eq_refl). }
      destruct (finished l) eqn:Ef.
      * right. left. exists ThreadJoin. unfold step. by rewrite Hat, El, Ef.
      * right. right. split; [by left|]. by apply (Hlistener l).
    + right. left. exists Summary. unfold step. rewrite Hat.
      by destruct (summary _) as [[r ds] out].
    + left. rewrite Hat. split; [done|]. apply Hjoin. lia.
  - (* the main thread has raised *)
    destruct (listener c) as [l|] eqn:El; [|done].
    destruct (finished l) eqn:Ef.
    + left. rewrite Hr. eauto.
    + right. right. split; [by right|]. by apply (Hlistener l).
Qed.

End SessionOutcome.

Section SummaryLine.
Context `{Codec}.
Variable timeout : Z.
Variable lenv : listener_env.
Variable penv : prober_env.
Variable ds0 : list json.

Lemma summary_prints ds : summary ds = (Ok tt, ds, [summary_line ds]).
Proof. unfold summary. unfold_M. by destruct ds. Qed.

Lemma listener_step_ended c l :
  listener c = Some l → finished l = true →
  step timeout lenv ListenerThread c = c.
Proof.
  intros Hl Hfin. unfold step. rewrite Hl.
  by destruct l as [[|x rest]|e].
Qed.

Lemma listener_step_main c :
  main (step timeout lenv ListenerThread c) = main c.
Proof.
  unfold step. destruct (listener c) as [[[|[lab stmt] rest]|e]|]; try done.
  by destruct (stmt (discovered_devices c)) as [[r ds] out].
Qed.

(** X17: when [discover_devices] returns, the last line on standard
    output is the summary, and it speaks of the list as the listener left
    it: no device found when that list is empty, the number of its
    records otherwise, those it held before the session included. *)
Theorem summary_counts_the_final_list s :
  let c := run timeout lenv s (initial penv ds0) in
  main c = Running [] →
  ∃ before,
    stdout c
    = before ++ [summary_line (devices_after (listen_for_responses timeout lenv ds0))].
Proof.
  intros c Hret.
  assert (finished (main c) = true) as Hfin by (by rewrite Hret).
  destruct (session_end timeout lenv penv s ds0 Hfin)
    as [(_ & _ & _ & l & Hl & Hlfin) | (Hr & _)]; [|subst c; congruence].
  destruct (listener_end timeout lenv penv s ds0 l Hl Hlfin) as [<- _]. fold c.
  clear Hfin l Hl Hlfin. revert Hret. subst c.
  apply (after_every_schedule timeout lenv penv ds0
           (λ c, main c = Running [] →
                 ∃ before, stdout c = before ++ [summary_line (discovered_devices c)])).
  { discriminate. }
  clear s. intros t c Hinv IH Hret. destruct t.
  - (* a step of the main thread *)
    destruct Hinv as [[(k & Hk & Hat & _) | (Hr & _)] _ _].
    2:{ unfold step in Hret. rewrite Hr in Hret. simpl in Hret. congruence. }
    unfold main_at in Hat. unfold step in Hret |- *. rewrite Hat in Hret |- *.
    destruct k as [|[|[|[|[|[|[|[|k]]]]]]]]; try lia; simpl in Hat, Hret |- *;
      try discriminate.
    + unfold_M. by destruct (p_socket_ok penv).
    + unfold_M. by destruct (p_setsockopt_ok penv).
    + unfold guarded_send in Hret. unfold_M. by destruct (p_sendto_ok penv).
    + destruct (listener c) as [l|]; [destruct (finished l)|];
        simpl in Hret; try discriminate; rewrite Hat in Hret; discriminate.
    + rewrite summary_prints. simpl. eauto.
    + apply IH. exact Hat.
  - (* a step of the listener *)
    rewrite listener_step_main in Hret.
    destruct (main_position timeout lenv penv ds0 c 7 Hinv) as [_ Hjoin];
      [by rewrite Hret|lia|].
    destruct Hjoin as (l & Hl & Hlfin); [lia|].
    rewrite (listener_step_ended c l Hl Hlfin). by apply IH.
Qed.

End SummaryLine.

(** ** The further properties at work *)

Section MoreInstances.
Import Fragment Examples.
#[local] Existing Instance Fragment.codec.

(** A response that arrives when the clock has reached the deadline, and
    one after it, are not heard. *)
Lemma nothing_after_the_deadline_witness :
  let before := [from "10.0.0.5" 1 dev_A] in
  let it := from "10.0.0.9" 7 dev_B in
  let after := [from "10.0.0.7" 8 dev_C] in
  5 ≤ clock it - 0
  ∧ listen_loop 0 5 (before ++ it :: after) [] = listen_loop 0 5 before []
  ∧ devices_after (listen_loop 0 5 before []) = [doc_A].
Proof.
  intros before it after.
  assert (5 ≤ clock it - 0) as Hlate by (simpl; lia).
  refine (conj Hlate (conj _ _)).
  - exact (nothing_after_the_deadline 0 5 before it after [] Hlate).
  - vm_compute. reflexivity.
Defined.

(** With a timeout of zero a response that is there at once is not
    read. *)
Lemma zero_timeout_hears_nothing_witness :
  let env := hears [from "10.0.0.5" 0 dev_A] in
  l_socket_ok env = true ∧ l_setsockopt_ok env = true ∧ l_bind_ok env = true
  ∧ (∀ it rest, l_turns env = it :: rest → l_start_time env ≤ clock it)
  ∧ listen_for_responses 0 env [] = (Ok tt, [], [Listening 0]).
Proof.
  intros env.
  assert (∀ it rest, l_turns env = it :: rest → l_start_time env ≤ clock it) as Hc.
  { intros it rest [= <- <-]. simpl. lia. }
  refine (conj eq_refl (conj eq_refl (conj eq_refl (conj Hc _)))).
  exact (zero_timeout_hears_nothing env [] eq_refl eq_refl eq_refl Hc).
Defined.

(** A datagram without data between two responses. *)
Lemma idle_turn_leaves_no_trace_witness :
  let before := [from "10.0.0.5" 1 dev_A] in
  let it := mkIteration 2 (RecvDatagram [] ("10.0.0.9", 5678)) in
  let after := [from "10.0.0.9" 3 dev_B] in
  idle (recvfrom it) ∧ clock it - 0 < 5
  ∧ listen_loop 0 5 (before ++ it :: after) []
    = listen_loop 0 5 (before ++ after) [].
Proof.
  intros before it after.
  assert (idle (recvfrom it)) as Hidle by (right; eexists; reflexivity).
  assert (clock it - 0 < 5) as Hwin by (simpl; lia).
  refine (conj Hidle (conj Hwin _)).
  exact (idle_turn_leaves_no_trace 0 5 before it after [] Hidle Hwin).
Defined.

(** Two bytes that are not UTF-8 are reported as an error, not as a
    non-JSON response. *)
Lemma undecodable_datagram_is_reported_witness :
  [xff; xfe] ≠ [] ∧ decoded [xff; xfe] = Raise UnicodeDecodeError
  ∧ process_datagram [xff; xfe] ("10.0.0.9", 5678) [doc_A]
    = (Ok tt, [doc_A], [ErrorProcessing "10.0.0.9" UnicodeDecodeError]).
Proof.
  assert ([xff; xfe] ≠ []) as Hne by discriminate.
  assert (decoded [xff; xfe] = Raise UnicodeDecodeError) as He
    by (vm_compute; reflexivity).
  refine (conj Hne (conj He _)).
  exact (undecodable_datagram_is_reported [xff; xfe] ("10.0.0.9", 5678) [doc_A]
           UnicodeDecodeError Hne He).
Defined.

(** A response with a hostname that an ASCII console cannot encode: the
    record is stored, the banner is printed, and the failure of [print] is
    reported as an error for the sender. *)
Lemma decoded_datagram_outcome_witness :
  let data := payload "{'hostname':'café','ip':'10.0.0.7'}" in
  let v := JDict (<["hostname" := JStr "café"]> (<["ip" := JStr "10.0.0.7"]> ∅)) in
  data ≠ []
  ∧ @decoded ascii_console data = Ok v
  ∧ Forall (λ d, is_dict d = true) [doc_A]
  ∧ @process_datagram ascii_console data ("10.0.0.7", 5678) [doc_A]
    = (Ok tt, [doc_A; v], [Banner; ErrorProcessing "10.0.0.7" UnicodeEncodeError]).
Proof.
  intros data v.
  assert (data ≠ []) as Hne by (vm_compute; discriminate).
  assert (@decoded ascii_console data = Ok v) as Hv by (vm_compute; reflexivity).
  assert (Forall (λ d, is_dict d = true) [doc_A]) as Hds by (repeat constructor).
  assert ((if existsb (same_ip "10.0.0.7") [doc_A]
           then (Ok tt, [doc_A], [])
           else (Ok tt, [doc_A] ++ [v],
                 printed (@print_device_info ascii_console v ([doc_A] ++ [v]))
                 ++ match result (@print_device_info ascii_console v ([doc_A] ++ [v])) with
                    | Ok _ => []
                    | Raise e => [ErrorProcessing "10.0.0.7" e]
                    end))
          = (Ok tt, [doc_A; v], [Banner; ErrorProcessing "10.0.0.7" UnicodeEncodeError]))
    as Hout by (vm_compute; reflexivity).
  subst data v.
  refine (conj Hne (conj Hv (conj Hds _))).
  exact (eq_trans (proj1 (@decoded_datagram_outcome ascii_console _ "10.0.0.7" 5678
                            _ [doc_A] Hne Hv Hds)) Hout).
Defined.

(** The response of dev-A, twice in a row. *)
Lemma truthful_response_twice_witness :
  let dg := (dev_A, ("10.0.0.5", 5678)) in
  truthful dg ∧ Forall (λ d, is_dict d = true) [doc_B]
  ∧ store (store [doc_B] dg) dg = store [doc_B] dg.
Proof.
  intros dg.
  assert (truthful dg) as Ht.
  { split; [vm_compute; discriminate|].
    destruct decoded_examples as (HA & _). eexists. split; [exact HA|].
    vm_compute. reflexivity. }
  assert (Forall (λ d, is_dict d = true) [doc_B]) as Hds by (repeat constructor).
  refine (conj Ht (conj Hds _)).
  exact (truthful_response_twice [doc_B] dg Ht Hds).
Defined.

(** One responder, the listener scheduled first: [sendto] is called
    once. *)
Lemma sendto_is_called_once_witness :
  let lenv := hears [from "10.0.0.5" 1 dev_A] in
  let c := run 5 lenv (listener_first 5 lenv prober_ok) (initial prober_ok []) in
  main c = Running [] ∧ sendto_calls (history c) = 1%nat.
Proof.
  intros lenv c.
  assert (main c = Running []) as Hret by (vm_compute; reflexivity).
  subst c lenv.
  refine (conj Hret _).
  exact (proj1 (proj2 (sendto_is_called_once 5 _ prober_ok [] _)) Hret).
Defined.

(** The main thread starts the listener, which runs up to its first
    turn. *)
Lemma no_receive_before_bind_witness :
  let lenv := hears [from "10.0.0.5" 1 dev_A] in
  let s := MainThread :: repeat ListenerThread 6 in
  let before := [ThreadStart; ListenSocket; ListenSetsockopt; ListenSettimeout;
                 ListenBind; ListenAnnounce] in
  history (run 5 lenv s (initial prober_ok [])) = before ++ ListenTurn :: []
  ∧ ListenBind ∈ before.
Proof.
  intros lenv s before.
  assert (history (run 5 lenv s (initial prober_ok [])) = before ++ ListenTurn :: [])
    as Hh by (vm_compute; reflexivity).
  subst before s lenv.
  refine (conj Hh _).
  exact (no_receive_before_bind 5 _ prober_ok [] _ _ _ Hh).
Defined.

(** One responder, the listener scheduled first. *)
Lemma summary_waits_for_the_listener_witness :
  let lenv := hears [from "10.0.0.5" 1 dev_A] in
  let c := run 5 lenv (listener_first 5 lenv prober_ok) (initial prober_ok []) in
  Summary ∈ history c
  ∧ (∃ l, listener c = Some l ∧ finished l = true)
  ∧ discovered_devices c = devices_after (listen_for_responses 5 lenv []).
Proof.
  intros lenv c.
  assert (Summary ∈ history c) as Hin.
  { assert (last (history c) = Some Summary) as Hlast by (vm_compute; reflexivity).
    apply last_Some in Hlast as [h ->]. apply elem_of_app. right. by left. }
  subst c lenv.
  refine (conj Hin _).
  exact (summary_waits_for_the_listener 5 _ prober_ok [] _ Hin).
Defined.

(** The same session under two schedules: the listener first, and the
    main thread first up to its [join]. *)
Lemma outcome_is_schedule_independent_witness :
  let lenv := hears [from "10.0.0.5" 1 dev_A; from "10.0.0.9" 2 dev_B] in
  let s1 := listener_first 5 lenv prober_ok in
  let s2 := repeat MainThread 6 ++ repeat ListenerThread 8 ++ repeat MainThread 2 in
  let c1 := run 5 lenv s1 (initial prober_ok []) in
  let c2 := run 5 lenv s2 (initial prober_ok []) in
  finished (main c1) = true ∧ finished (main c2) = true
  ∧ main c1 = main c2
  ∧ (main c1 = Running [] →
     discovered_devices c1 = discovered_devices c2
     ∧ listener c1 = listener c2
     ∧ ∃ l, listener c1 = Some l ∧ finished l = true).
Proof.
  intros lenv s1 s2 c1 c2.
  assert (finished (main c1) = true) as Hf1 by (vm_compute; reflexivity).
  assert (finished (main c2) = true) as Hf2 by (vm_compute; reflexivity).
  subst c1 c2 s1 s2 lenv.
  refine (conj Hf1 (conj Hf2 _)).
  exact (outcome_is_schedule_independent 5 _ prober_ok [] _ _ Hf1 Hf2).
Defined.

(** A second session in which nothing answers reports the device of the
    first. *)
Lemma summary_counts_the_final_list_witness :
  let c := run 5 (hears []) (listener_first 5 (hears []) prober_ok)
               (initial prober_ok [doc_A]) in
  main c = Running []
  ∧ ∃ before,
      stdout c
      = before ++ [summary_line (devices_after (listen_for_responses 5 (hears []) [doc_A]))].
Proof.
  intros c.
  assert (main c = Running []) as Hret by (vm_compute; reflexivity).
  subst c.
  refine (conj Hret _).
  exact (summary_counts_the_final_list 5 _ prober_ok [doc_A] _ Hret).
Defined.

End MoreInstances.
